(** * Google Photos media source: identifier codec and catalog adapter

    A shallow embedding of
    [homeassistant/components/google_photos/media_source.py]
    together with the properties of its identifier codec, of the browse
    state machine and of the resolve operation. *)

From Stdlib Require Import String Ascii List ZArith Lia Bool DecimalString.
Import ListNotations.
Local Open Scope string_scope.
Local Open Scope list_scope.

(* ================================================================= *)
(** ** Python string helpers *)

Module PyStr.

(** [c in s] for a one-character [c]. *)
Fixpoint contains (c : ascii) (s : string) : bool :=
  match s with
  | EmptyString => false
  | String d s' => if Ascii.eqb d c then true else contains c s'
  end.

(** [s.count(c)] for a one-character [c]. *)
Fixpoint count (c : ascii) (s : string) : nat :=
  match s with
  | EmptyString => 0
  | String d s' => (if Ascii.eqb d c then 1 else 0) + count c s'
  end.

(** [s.split(sep)] for a one-character separator: the fields between
    the occurrences of [sep], empty fields kept; never the empty list. *)
Fixpoint split (sep : ascii) (s : string) : list string :=
  match s with
  | EmptyString => [EmptyString]
  | String d s' =>
      if Ascii.eqb d sep then EmptyString :: split sep s'
      else match split sep s' with
           | [] => [String d EmptyString]
           | p :: ps => String d p :: ps
           end
  end.

(** [f"{n}"] for an [int]. *)
Definition of_int (n : Z) : string := NilZero.string_of_int (Z.to_int n).

(** [sep.join(parts)] for a one-character separator. *)
Fixpoint join (sep : ascii) (parts : list string) : string :=
  match parts with
  | [] => EmptyString
  | [p] => p
  | p :: rest => p ++ String sep (join sep rest)
  end.

End PyStr.

(* ================================================================= *)
(** ** Constants of the module *)

Definition MAX_PHOTOS : Z := 50.
Definition PAGE_SIZE : Z := 100.

Definition THUMBNAIL_SIZE : Z := 256.
Definition LARGE_IMAGE_SIZE : Z := 2048.

Definition PHOTO_SOURCE_IDENTIFIER_PHOTO : string := "p".
Definition PHOTO_SOURCE_IDENTIFIER_ALBUM : string := "a".

Definition RECENT_PHOTOS_ALBUM : string := "recent".
Definition RECENT_PHOTOS_TITLE : string := "Recent Photos".

(** The delimiter of the identifier pattern. *)
Definition slash : ascii := "/"%char.

(* ================================================================= *)
(** ** Identifier codec *)

(** The dataclass [PhotosIdentifier]; the two optional fields default to
    [None]. *)
Record PhotosIdentifier : Type := mkPhotosIdentifier {
  config_entry_id : string;
  album_media_id : option string;
  photo_media_id : option string
}.

(** The text of an exception.  An f-string that interpolates a [str] is
    kept rendered; one that interpolates a [PhotosIdentifier] is kept as
    its literal prefix and the interpolated value, the dataclass [repr]
    being left symbolic. *)
Inductive message : Type :=
| Msg (text : string)
| MsgRepr (prefix : string) (identifier : PhotosIdentifier).

(** [GooglePhotosApiError], the typed error of the remote client. *)
Inductive GooglePhotosApiError : Type :=
| ApiError (text : string).

(** [str(err)], the text an f-string interpolates for [err]. *)
Definition str_api_error (err : GooglePhotosApiError) : string :=
  match err with ApiError text => text end.

(** The exceptions that leave the module: a [BrowseError] it raises
    itself, [cause] being the [__cause__] set by [raise ... from err], or
    an API error it lets through. *)
Inductive exn : Type :=
| BrowseError (msg : message) (cause : option GooglePhotosApiError)
| Uncaught (err : GooglePhotosApiError).

(** [PhotosIdentifier.as_string] *)
Definition as_string (self : PhotosIdentifier) : string :=
  match photo_media_id self with
  | None =>
      match album_media_id self with
      | None => config_entry_id self
      | Some album =>
          config_entry_id self ++ "/" ++ PHOTO_SOURCE_IDENTIFIER_ALBUM
            ++ "/" ++ album
      end
  | Some photo =>
      config_entry_id self ++ "/" ++ PHOTO_SOURCE_IDENTIFIER_PHOTO
        ++ "/" ++ photo
  end.

(** [parse_identifier]: [inl] is the raised exception; [part i] is
    [parts[i]], read only at an index the length checks allow. *)
Definition parse_identifier (identifier : string) : exn + PhotosIdentifier :=
  let parts := PyStr.split slash identifier in
  let part i := nth i parts EmptyString in
  if Nat.eqb (length parts) 1 then
    inr (mkPhotosIdentifier (part 0) None None)
  else if negb (Nat.eqb (length parts) 3) then
    inl (BrowseError (Msg ("Invalid identifier: " ++ identifier)) None)
  else if String.eqb (part 1) PHOTO_SOURCE_IDENTIFIER_PHOTO then
    inr (mkPhotosIdentifier (part 0) None (Some (part 2)))
  else
    inr (mkPhotosIdentifier (part 0) (Some (part 2)) None).

(** The invariant of the dataclass: the album and the photo reference are
    not present at the same time. *)
Definition valid_identifier (x : PhotosIdentifier) : Prop :=
  album_media_id x = None \/ photo_media_id x = None.

Definition opt_slash_free (o : option string) : bool :=
  match o with
  | None => true
  | Some s => negb (PyStr.contains slash s)
  end.

(** No field of the identifier holds the delimiter. *)
Definition slash_free (x : PhotosIdentifier) : bool :=
  negb (PyStr.contains slash (config_entry_id x))
  && opt_slash_free (album_media_id x)
  && opt_slash_free (photo_media_id x).

(** The three canonical string shapes, as the spec lists them. *)
Inductive shape (x : PhotosIdentifier) : string -> Prop :=
| shape_account :
    album_media_id x = None -> photo_media_id x = None ->
    shape x (config_entry_id x)
| shape_album album :
    album_media_id x = Some album -> photo_media_id x = None ->
    shape x (config_entry_id x ++ "/a/" ++ album)
| shape_item item :
    album_media_id x = None -> photo_media_id x = Some item ->
    shape x (config_entry_id x ++ "/p/" ++ item).

(* ================================================================= *)
(** ** Payloads of the remote client and nodes of the catalog *)

Module MediaClass.
Inductive t : Type := DIRECTORY | IMAGE | ALBUM | VIDEO.
End MediaClass.

Module MediaType.
Inductive t : Type := IMAGE | VIDEO.
End MediaType.

(** The value of [media_content_type]: the module passes members of
    either enumeration. *)
Inductive content_type : Type :=
| OfClass (c : MediaClass.t)
| OfType (t : MediaType.t).

(** The media item dictionary of the remote API.  A key read with
    [d["k"]] is a field, a key read with [d.get("k")] an optional one.
    [width] and [height] are the pixel sizes, integers that [_media_url]
    compares; the value under ["video"] is only tested for presence. *)
Module MediaItem.
Record metadata : Type := mkMetadata {
  width : Z;
  height : Z;
  video : option (list (string * string))
}.
Record t : Type := mk {
  id : string;
  filename : string;
  mimeType : string;
  baseUrl : string;
  mediaMetadata : metadata
}.
End MediaItem.

(** The dictionary [list_media_items] returns. *)
Record ListResult : Type := mkListResult {
  mediaItems : list MediaItem.t;
  nextPageToken : option string
}.

(** [MediaSourceItem], by the one attribute the module reads. *)
Record MediaSourceItem : Type := mkItem {
  identifier : string
}.

Record PlayMedia : Type := mkPlayMedia {
  url : string;
  mime_type : string
}.

Module Browse.
(** [BrowseMediaSource]; [children_media_class], [thumbnail] and
    [children] default to [None]. *)
#[warnings="-register-all"]
Inductive t : Type := mk {
  domain : string;
  identifier : option string;
  media_class : MediaClass.t;
  media_content_type : content_type;
  title : string;
  can_play : bool;
  can_expand : bool;
  children_media_class : option MediaClass.t;
  thumbnail : option string;
  children : option (list t)
}.

(** [source.children = cs] *)
Definition set_children (source : t) (cs : list t) : t :=
  mk (domain source) (identifier source) (media_class source)
     (media_content_type source) (title source) (can_play source)
     (can_expand source) (children_media_class source)
     (thumbnail source) (Some cs).
End Browse.

Definition BrowseMediaSource : Type := Browse.t.

(* ================================================================= *)
(** ** Collaborators: the remote client and the host registry *)

(** The remote client of one account.  [W] is the state of the world the
    awaited calls act on; a call answers with the typed API error or with
    its payload. *)
Record Client (W : Type) : Type := mkClient {
  list_media_items :
    Z -> option string -> W -> (GooglePhotosApiError + ListResult) * W;
  get_media_item :
    string -> W -> (GooglePhotosApiError + MediaItem.t) * W
}.
Arguments list_media_items {W}.
Arguments get_media_item {W}.
Arguments mkClient {W}.

Module ConfigEntry.
Record t (W : Type) : Type := mk {
  unique_id : string;
  title : string;
  runtime_data : Client W
}.
Arguments mk {W}.
Arguments unique_id {W}.
Arguments title {W}.
Arguments runtime_data {W}.
End ConfigEntry.

(** [hass.config_entries], by the two methods the module calls; the first
    argument of each is the domain. *)
Record HomeAssistant (W : Type) : Type := mkHass {
  async_loaded_entries : string -> list (ConfigEntry.t W);
  async_entry_for_domain_unique_id :
    string -> string -> option (ConfigEntry.t W)
}.
Arguments mkHass {W}.
Arguments async_loaded_entries {W}.
Arguments async_entry_for_domain_unique_id {W}.

(* ================================================================= *)
(** ** Effects *)

(** What a call does to its collaborators, in order. *)
Inductive event : Type :=
| EntryLookup (config_entry_id : string)
| ListMediaItems (page_size : Z) (page_token : option string)
    (response : GooglePhotosApiError + ListResult)
| GetMediaItem (media_item_id : string)
    (response : GooglePhotosApiError + MediaItem.t).

Definition is_remote_call (ev : event) : bool :=
  match ev with
  | EntryLookup _ => false
  | ListMediaItems _ _ _ | GetMediaItem _ _ => true
  end.

Inductive outcome (A : Type) : Type :=
| Returned (a : A)
| Raised (e : exn)
| OutOfFuel.
Arguments Returned {A}.
Arguments Raised {A}.
Arguments OutOfFuel {A}.

(** A computation over the world [W]: its outcome, the world it leaves
    and the events it performed. *)
Definition M (W A : Type) : Type := W -> outcome A * W * list event.

Definition ret {W A} (a : A) : M W A := fun w => (Returned a, w, []).

Definition raise {W A} (e : exn) : M W A := fun w => (Raised e, w, []).

Definition bind {W A B} (m : M W A) (k : A -> M W B) : M W B :=
  fun w =>
    match m w with
    | (Returned a, w1, evs) =>
        let '(o, w2, evs') := k a w1 in (o, w2, evs ++ evs')
    | (Raised e, w1, evs) => (Raised e, w1, evs)
    | (OutOfFuel, w1, evs) => (OutOfFuel, w1, evs)
    end.

Notation "x <- m ;; k" := (bind m (fun x => k))
  (at level 61, m at next level, right associativity).

(** The outcome, the final world and the events of a computation. *)
Definition result_of {W A} (r : outcome A * W * list event) : outcome A :=
  fst (fst r).
Definition world_of {W A} (r : outcome A * W * list event) : W :=
  snd (fst r).
Definition events_of {W A} (r : outcome A * W * list event) : list event :=
  snd r.

(* ================================================================= *)
(** ** URL derivation and node construction *)

(** [_media_url] *)
Definition _media_url (media_item : MediaItem.t) (max_size : Z) : string :=
  let width := MediaItem.width (MediaItem.mediaMetadata media_item) in
  let height := MediaItem.height (MediaItem.mediaMetadata media_item) in
  let key := if (height >? width)%Z then "h" else "w" in
  MediaItem.baseUrl media_item ++ "=" ++ key ++ PyStr.of_int max_size.

(** [_video_url] *)
Definition _video_url (media_item : MediaItem.t) : string :=
  MediaItem.baseUrl media_item ++ "=dv".

(** [media_item["mediaMetadata"].get("video") is not None] *)
Definition is_video (media_item : MediaItem.t) : bool :=
  match MediaItem.video (MediaItem.mediaMetadata media_item) with
  | Some _ => true
  | None => false
  end.

Section Adapter.

(** The state of the world behind the remote clients. *)
Variable W : Type.

(** [DOMAIN] of the integration's [const] module. *)
Variable DOMAIN : string.

(** [_build_account] *)
Definition _build_account (config_entry : ConfigEntry.t W)
    (identifier : PhotosIdentifier) : BrowseMediaSource :=
  Browse.mk DOMAIN (Some (as_string identifier))
    MediaClass.DIRECTORY (OfClass MediaClass.IMAGE)
    (ConfigEntry.title config_entry) false true None None None.

(** [_build_album] *)
Definition _build_album (title : string) (identifier : PhotosIdentifier)
    : BrowseMediaSource :=
  Browse.mk DOMAIN (Some (as_string identifier))
    MediaClass.ALBUM (OfClass MediaClass.ALBUM)
    title false true None None None.

(** [_build_media_item] *)
Definition _build_media_item (identifier : PhotosIdentifier)
    (media_item : MediaItem.t) : BrowseMediaSource :=
  let is_video := is_video media_item in
  Browse.mk DOMAIN (Some (as_string identifier))
    (if negb is_video then MediaClass.IMAGE else MediaClass.VIDEO)
    (OfType (if negb is_video then MediaType.IMAGE else MediaType.VIDEO))
    (MediaItem.filename media_item) is_video false None
    (Some (_media_url media_item THUMBNAIL_SIZE)) None.

(** The host of the media source: [self.hass]. *)
Variable hass : HomeAssistant W.

(** [GooglePhotosMediaSource._async_config_entry] *)
Definition _async_config_entry (config_entry_id : string)
    : M W (ConfigEntry.t W) :=
  fun w =>
    let entry := async_entry_for_domain_unique_id hass DOMAIN config_entry_id in
    let evs := [EntryLookup config_entry_id] in
    match entry with
    | None =>
        (Raised (BrowseError
           (Msg ("Could not find config entry for identifier: "
                 ++ config_entry_id)) None), w, evs)
    | Some entry => (Returned entry, w, evs)
    end.

(** [await client.get_media_item(media_item_id=...)]: the API error is not
    caught. *)
Definition await_get_media_item (client : Client W) (media_item_id : string)
    : M W MediaItem.t :=
  fun w =>
    let '(response, w') := get_media_item client media_item_id w in
    let evs := [GetMediaItem media_item_id response] in
    match response with
    | inl err => (Raised (Uncaught err), w', evs)
    | inr media_item => (Returned media_item, w', evs)
    end.

(** The [try] block of the pagination loop:
    [await client.list_media_items(...)] with the API error turned into a
    [BrowseError] raised [from] it. *)
Definition try_list_media_items (client : Client W) (page_size : Z)
    (page_token : option string) : M W ListResult :=
  fun w =>
    let '(response, w') := list_media_items client page_size page_token w in
    let evs := [ListMediaItems page_size page_token response] in
    match response with
    | inl err =>
        (Raised (BrowseError
           (Msg ("Error listing media items: " ++ str_api_error err))
           (Some err)), w', evs)
    | inr result => (Returned result, w', evs)
    end.

(** [GooglePhotosMediaSource.async_resolve_media] *)
Definition async_resolve_media (item : MediaSourceItem) : M W PlayMedia :=
  match parse_identifier (identifier item) with
  | inl e => raise e
  | inr identifier =>
      match photo_media_id identifier with
      | None =>
          raise (BrowseError
            (MsgRepr "Could not resolve identifier without a photo_media_id: "
               identifier) None)
      | Some photo =>
          entry <- _async_config_entry (config_entry_id identifier) ;;
          let client := ConfigEntry.runtime_data entry in
          media_item <- await_get_media_item client photo ;;
          ret (mkPlayMedia
                 (if is_video media_item then _video_url media_item
                  else _media_url media_item LARGE_IMAGE_SIZE)
                 (MediaItem.mimeType media_item))
      end
  end.

(** The [while] loop of [async_browse_media] that fetches the recent
    items; [fuel] bounds the number of iterations the model follows, and
    [OutOfFuel] says that the loop is still running after that many. *)
Fixpoint fetch_recent (fuel : nat) (client : Client W)
    (media_items : list MediaItem.t) (page_token : option string)
    : M W (list MediaItem.t) :=
  if (Z.of_nat (length media_items) <? MAX_PHOTOS)%Z then
    match fuel with
    | O => fun w => (OutOfFuel, w, [])
    | S fuel' =>
        result <- try_list_media_items client PAGE_SIZE page_token ;;
        let media_items := media_items ++ mediaItems result in
        let page_token := nextPageToken result in
        match page_token with
        | None => ret media_items
        | Some _ => fetch_recent fuel' client media_items page_token
        end
    end
  else ret media_items.

(** [GooglePhotosMediaSource.async_browse_media] *)
Definition async_browse_media (fuel : nat) (item : MediaSourceItem)
    : M W BrowseMediaSource :=
  if String.eqb (identifier item) EmptyString then
    ret (Browse.mk DOMAIN None MediaClass.DIRECTORY (OfClass MediaClass.IMAGE)
           "Google Photos" false true (Some MediaClass.DIRECTORY) None
           (Some (map (fun entry =>
                         _build_account entry
                           (mkPhotosIdentifier (ConfigEntry.unique_id entry)
                              None None))
                      (async_loaded_entries hass DOMAIN))))
  else
    match parse_identifier (identifier item) with
    | inl e => raise e
    | inr identifier =>
        entry <- _async_config_entry (config_entry_id identifier) ;;
        let client := ConfigEntry.runtime_data entry in
        match album_media_id identifier with
        | None =>
            let source := _build_account entry identifier in
            ret (Browse.set_children source
                   [_build_album RECENT_PHOTOS_TITLE
                      (mkPhotosIdentifier (config_entry_id identifier)
                         (Some RECENT_PHOTOS_ALBUM) None)])
        | Some album =>
            if negb (String.eqb album RECENT_PHOTOS_ALBUM) then
              raise (BrowseError (MsgRepr "Unsupported album: " identifier)
                       None)
            else
              media_items <- fetch_recent fuel client [] None ;;
              let source :=
                _build_account entry
                  (mkPhotosIdentifier (ConfigEntry.unique_id entry) None None)
              in
              ret (Browse.set_children source
                     (map (fun media_item =>
                             _build_media_item
                               (mkPhotosIdentifier (config_entry_id identifier)
                                  None (Some (MediaItem.id media_item)))
                               media_item)
                          media_items))
        end
    end.

End Adapter.

(* ================================================================= *)
(** ** The pagination loop in the words of the spec *)

(** The page requests a browse of the recent album may issue, [fetched]
    items being accumulated and [page_token] being the token in hand: a
    request is issued only below the item threshold, with the fixed page
    size and the token of the previous response; nothing follows an
    error or a response without a token, and once the threshold is
    reached nothing is requested. *)
Fixpoint paged_listing (fetched : nat) (page_token : option string)
    (evs : list event) : Prop :=
  match evs with
  | [] => (MAX_PHOTOS <= Z.of_nat fetched)%Z
  | ListMediaItems size token response :: rest =>
      (Z.of_nat fetched < MAX_PHOTOS)%Z /\ size = PAGE_SIZE
      /\ token = page_token
      /\ match response with
         | inl _ => rest = []
         | inr result =>
             match nextPageToken result with
             | None => rest = []
             | Some _ =>
                 paged_listing (fetched + length (mediaItems result))
                   (nextPageToken result) rest
             end
         end
  | _ :: _ => False
  end.

(** A remote that makes progress: a page that announces a further page
    carries at least one item. *)
Definition productive {W : Type} (client : Client W) : Prop :=
  forall size token w result w',
    list_media_items client size token w = (inr result, w') ->
    nextPageToken result <> None -> mediaItems result <> [].

(* ================================================================= *)
(** ** Reading a trace *)

(** The items of the pages a trace received, in the order received. *)
Fixpoint listed_items (evs : list event) : list MediaItem.t :=
  match evs with
  | [] => []
  | ListMediaItems _ _ (inr result) :: rest =>
      mediaItems result ++ listed_items rest
  | _ :: rest => listed_items rest
  end.

Definition is_list_call (ev : event) : bool :=
  match ev with ListMediaItems _ _ _ => true | _ => false end.

Definition is_get_call (ev : event) : bool :=
  match ev with GetMediaItem _ _ => true | _ => false end.

Definition is_lookup (ev : event) : bool :=
  match ev with EntryLookup _ => true | _ => false end.

(** The last response of a trace is a page without a continuation
    token. *)
Definition ends_without_token (evs : list event) : Prop :=
  exists size token result,
    last evs (EntryLookup EmptyString)
    = ListMediaItems size token (inr result)
    /\ nextPageToken result = None.

(* ================================================================= *)
(** ** Concrete collaborators *)

Module Fixture.

Definition photo : MediaItem.t :=
  MediaItem.mk "1" "a.jpg" "image/jpeg" "https://lh3/1"
    (MediaItem.mkMetadata 100 200 None).

Definition landscape : MediaItem.t :=
  MediaItem.mk "2" "b.jpg" "image/jpeg" "https://lh3/2"
    (MediaItem.mkMetadata 2048 1024 None).

Definition movie : MediaItem.t :=
  MediaItem.mk "3" "c.mp4" "video/mp4" "https://lh3/3"
    (MediaItem.mkMetadata 1920 1080 (Some [("fps", "30")])).

(** A remote whose answer to the [n]-th call is scripted; the world is
    the number of calls served so far. *)
Definition scripted (pages : nat -> GooglePhotosApiError + ListResult)
    (items : string -> GooglePhotosApiError + MediaItem.t) : Client nat :=
  mkClient (fun _ _ n => (pages n, S n))
    (fun media_item_id n => (items media_item_id, S n)).

Definition catalog (media_item_id : string)
    : GooglePhotosApiError + MediaItem.t :=
  if String.eqb media_item_id "1" then inr photo
  else if String.eqb media_item_id "2" then inr landscape
  else if String.eqb media_item_id "3" then inr movie
  else inl (ApiError "not found").

(** Every page is empty and announces a further page. *)
Definition endless : Client nat :=
  scripted (fun _ => inr (mkListResult [] (Some "next"))) catalog.

(** Every page carries thirty items and announces a further page. *)
Definition thirty : Client nat :=
  scripted (fun _ => inr (mkListResult (repeat photo 30) (Some "next")))
    catalog.

(** The second page request fails. *)
Definition failing : Client nat :=
  scripted (fun n => match n with
                     | O => inr (mkListResult [photo] (Some "next"))
                     | S _ => inl (ApiError "quota exceeded")
                     end) catalog.

(** One page of two items and no further page. *)
Definition single : Client nat :=
  scripted (fun _ => inr (mkListResult [photo; movie] None)) catalog.

Definition home (client : Client nat) : ConfigEntry.t nat :=
  ConfigEntry.mk "acc" "Home" client.

(** A registry with the one account [acc]. *)
Definition hass (client : Client nat) : HomeAssistant nat :=
  mkHass (fun _ => [home client])
    (fun _ unique_id =>
       if String.eqb unique_id "acc" then Some (home client) else None).

Definition DOMAIN : string := "google_photos".

Definition browse (client : Client nat) (fuel : nat) (identifier : string)
    : outcome BrowseMediaSource * nat * list event :=
  async_browse_media nat DOMAIN (hass client) fuel (mkItem identifier) 0.

Definition resolve (client : Client nat) (identifier : string)
    : outcome PlayMedia * nat * list event :=
  async_resolve_media nat DOMAIN (hass client) (mkItem identifier) 0.

End Fixture.

(* ================================================================= *)
(** ** Properties of the string helpers *)

Module PyStrFacts.
Import PyStr.

Lemma split_not_nil (sep : ascii) (s : string) : split sep s <> [].
Proof.
  destruct s as [|d s]; simpl; [discriminate|].
  destruct (Ascii.eqb d sep); [discriminate|].
  destruct (split sep s); discriminate.
Qed.

Lemma count_app (c : ascii) (a b : string) :
  count c (a ++ b) = count c a + count c b.
Proof.
  induction a as [|d a IH]; simpl; [reflexivity|].
  rewrite IH. lia.
Qed.

Lemma contains_count (c : ascii) (s : string) :
  contains c s = false <-> count c s = 0.
Proof.
  induction s as [|d s IH]; simpl; [tauto|].
  destruct (Ascii.eqb d c); simpl; [split; discriminate | exact IH].
Qed.

Lemma length_split (sep : ascii) (s : string) :
  length (split sep s) = S (count sep s).
Proof.
  induction s as [|d s IH]; simpl; [reflexivity|].
  destruct (Ascii.eqb d sep); simpl; [now rewrite IH|].
  destruct (split sep s) as [|p ps] eqn:E; simpl in *; [discriminate | exact IH].
Qed.

Lemma split_no_sep (sep : ascii) (s : string) :
  contains sep s = false -> split sep s = [s].
Proof.
  induction s as [|d s IH]; simpl; [reflexivity|].
  destruct (Ascii.eqb d sep); [discriminate|].
  intros H. now rewrite (IH H).
Qed.

Lemma split_app (sep : ascii) (a b : string) :
  contains sep a = false ->
  split sep (a ++ String sep b) = a :: split sep b.
Proof.
  induction a as [|d a IH]; simpl.
  - intros _. now rewrite Ascii.eqb_refl.
  - destruct (Ascii.eqb d sep); [discriminate|].
    intros H. now rewrite (IH H).
Qed.

Lemma split_fields3 (sep : ascii) (a m r : string) :
  contains sep a = false -> contains sep m = false -> contains sep r = false ->
  split sep (a ++ String sep (m ++ String sep r)) = [a; m; r].
Proof.
  intros Ha Hm Hr.
  now rewrite (split_app _ _ _ Ha), (split_app _ _ _ Hm), (split_no_sep _ _ Hr).
Qed.

Example of_int_2048 : of_int 2048 = "2048".
Proof. reflexivity. Qed.

Example split_three : split slash "acc/a/recent" = ["acc"; "a"; "recent"].
Proof. reflexivity. Qed.

Example split_empty : split slash EmptyString = [EmptyString].
Proof. reflexivity. Qed.

Example split_trailing : split slash "acc//" = ["acc"; EmptyString; EmptyString].
Proof. reflexivity. Qed.

End PyStrFacts.

(* ================================================================= *)
(** ** The identifier codec *)

Lemma negb_contains (s : string) :
  negb (PyStr.contains slash s) = true -> PyStr.contains slash s = false.
Proof. now destruct (PyStr.contains slash s). Qed.

Lemma as_string_shape (x : PhotosIdentifier) :
  valid_identifier x -> shape x (as_string x).
Proof.
  destruct x as [acc [al|] [ph|]]; intros [H|H]; simpl in H; try discriminate;
    unfold as_string; simpl.
  - now apply (shape_album (mkPhotosIdentifier acc (Some al) None) al).
  - now apply (shape_item (mkPhotosIdentifier acc None (Some ph)) ph).
  - now apply (shape_account (mkPhotosIdentifier acc None None)).
  - now apply (shape_account (mkPhotosIdentifier acc None None)).
Qed.

Lemma parse_account_only (s : string) :
  PyStr.contains slash s = false ->
  parse_identifier s = inr (mkPhotosIdentifier s None None).
Proof.
  intros H. unfold parse_identifier.
  now rewrite (PyStrFacts.split_no_sep _ _ H).
Qed.

Lemma parse_three (a m r : string) :
  PyStr.contains slash a = false ->
  PyStr.contains slash m = false ->
  PyStr.contains slash r = false ->
  parse_identifier (a ++ "/" ++ m ++ "/" ++ r) =
    if String.eqb m PHOTO_SOURCE_IDENTIFIER_PHOTO
    then inr (mkPhotosIdentifier a None (Some r))
    else inr (mkPhotosIdentifier a (Some r) None).
Proof.
  intros Ha Hm Hr. unfold parse_identifier.
  change (a ++ "/" ++ m ++ "/" ++ r)%string
    with (a ++ String slash (m ++ String slash r))%string.
  rewrite (PyStrFacts.split_fields3 _ _ _ _ Ha Hm Hr). reflexivity.
Qed.

(** What [parse_identifier] rejects: the strings whose number of fields
    is neither 1 nor 3, and no others. *)
Lemma parse_identifier_raises_iff (s : string) :
  (exists e, parse_identifier s = inl e) <->
  length (PyStr.split slash s) <> 1 /\ length (PyStr.split slash s) <> 3.
Proof.
  unfold parse_identifier.
  destruct (Nat.eqb_spec (length (PyStr.split slash s)) 1) as [E1|E1].
  - split; [intros [e H]; discriminate | intros [H _]; contradiction].
  - destruct (Nat.eqb_spec (length (PyStr.split slash s)) 3) as [E3|E3]; simpl.
    + split; [intros [e H]|intros [_ H]; contradiction].
      destruct (String.eqb _ _); discriminate.
    + split; [now intros _ | intros _; eexists; reflexivity].
Qed.

(** Round trip on the identifiers whose fields hold no delimiter. *)
Lemma roundtrip_slash_free (x : PhotosIdentifier) :
  valid_identifier x -> slash_free x = true ->
  parse_identifier (as_string x) = inr x.
Proof.
  destruct x as [acc al ph]. unfold slash_free, valid_identifier; simpl.
  intros Hv Hs.
  apply andb_prop in Hs as [Hs Hph]. apply andb_prop in Hs as [Hacc Hal].
  apply negb_contains in Hacc.
  destruct ph as [ph|]; [destruct Hv as [->|Hv]; [|discriminate]|].
  - apply negb_contains in Hph.
    unfold as_string; cbn [photo_media_id album_media_id config_entry_id].
    now rewrite (parse_three acc PHOTO_SOURCE_IDENTIFIER_PHOTO ph Hacc eq_refl Hph).
  - destruct al as [al|];
      unfold as_string; cbn [photo_media_id album_media_id config_entry_id].
    + apply negb_contains in Hal.
      now rewrite (parse_three acc PHOTO_SOURCE_IDENTIFIER_ALBUM al Hacc eq_refl Hal).
    + now apply parse_account_only.
Qed.

(** The number of delimiters of a string that decodes, by the shape of
    the decoded identifier. *)
Lemma parse_ok_count (s : string) (y : PhotosIdentifier) :
  parse_identifier s = inr y ->
  (PyStr.count slash s = 0 /\ album_media_id y = None /\ photo_media_id y = None)
  \/ (PyStr.count slash s = 2
      /\ (album_media_id y <> None \/ photo_media_id y <> None)).
Proof.
  unfold parse_identifier. rewrite PyStrFacts.length_split.
  destruct (PyStr.count slash s) as [|[|[|n]]]; simpl; try discriminate.
  - intros [= <-]. now left.
  - destruct (String.eqb _ _); intros [= <-]; right; split; trivial; simpl;
      [right | left]; discriminate.
Qed.

Lemma count_zero_free (s : string) :
  PyStr.count slash s = 0 -> negb (PyStr.contains slash s) = true.
Proof. intros H. apply PyStrFacts.contains_count in H. now rewrite H. Qed.

Lemma count_three_fields (a m r : string) :
  PyStr.count slash (a ++ "/" ++ m ++ "/" ++ r) =
  PyStr.count slash a + PyStr.count slash m + PyStr.count slash r + 2.
Proof.
  rewrite PyStrFacts.count_app. simpl PyStr.count.
  rewrite PyStrFacts.count_app. simpl PyStr.count. lia.
Qed.

(** A round trip that succeeds forces every field to be free of the
    delimiter. *)
Lemma roundtrip_only_slash_free (x : PhotosIdentifier) :
  valid_identifier x -> parse_identifier (as_string x) = inr x ->
  slash_free x = true.
Proof.
  destruct x as [acc al ph]. unfold valid_identifier, slash_free.
  cbn [photo_media_id album_media_id config_entry_id].
  intros Hv Hp. apply parse_ok_count in Hp.
  cbn [photo_media_id album_media_id] in Hp.
  destruct ph as [ph|]; [destruct Hv as [->|Hv]; [|discriminate]|];
    [|destruct al as [al|]];
    unfold as_string in Hp;
    cbn [photo_media_id album_media_id config_entry_id] in Hp;
    try rewrite count_three_fields in Hp;
    destruct Hp as [(Hc & Ha & Hb)|(Hc & Hs)]; try discriminate; try lia.
  - simpl. rewrite !count_zero_free by lia. reflexivity.
  - simpl. rewrite !count_zero_free by lia. reflexivity.
  - simpl. now rewrite count_zero_free.
  - destruct Hs as [Hs|Hs]; now elim Hs.
Qed.

(** C1. Shapes and round trip of the codec: for every valid identifier
    the encoded string is one of the three shapes [account],
    [account/a/album], [account/p/item], by the optional field that is
    set; and when no field of the identifier holds a ['/'], decoding the
    encoded string gives the identifier back. *)
Theorem identifier_roundtrip (x : PhotosIdentifier) :
  valid_identifier x ->
  shape x (as_string x)
  /\ (slash_free x = true -> parse_identifier (as_string x) = inr x).
Proof.
  intros Hv. split.
  - now apply as_string_shape.
  - now apply roundtrip_slash_free.
Qed.

Lemma identifier_roundtrip_witness :
  let x := mkPhotosIdentifier "acc" (Some "recent") None in
  valid_identifier x /\ slash_free x = true
  /\ shape x "acc/a/recent"
  /\ parse_identifier "acc/a/recent" = inr x.
Proof.
  intros x.
  assert (Hv : valid_identifier x) by (right; reflexivity).
  assert (Hs : slash_free x = true) by reflexivity.
  destruct (identifier_roundtrip x Hv) as [Hshape Hround].
  exact (conj Hv (conj Hs (conj Hshape (Hround Hs)))).
Defined.

(** C1, as stated, fails: the round trip does not hold for every valid
    identifier.  The item reference [b/c] is encoded as [acc/p/b/c],
    which has four fields and is rejected. *)
Lemma roundtrip_fails_with_delimiter :
  ~ (forall x : PhotosIdentifier,
       valid_identifier x -> parse_identifier (as_string x) = inr x).
Proof.
  intros H.
  specialize (H (mkPhotosIdentifier "acc" None (Some "b/c")) (or_introl eq_refl)).
  discriminate H.
Qed.

(** C2. The decoder on a three-field string whose middle field is neither
    ["a"] nor ["p"]: it does not raise, it returns an album identifier. *)
Theorem parse_identifier_unknown_marker :
  parse_identifier "acc/x/foo" = inr (mkPhotosIdentifier "acc" (Some "foo") None)
  /\ ~ (exists e, parse_identifier "acc/x/foo" = inl e).
Proof.
  split; [reflexivity|]. intros [e H]. discriminate H.
Qed.

(** C10. The codec does not escape the delimiter: an identifier with a
    ['/'] in its item reference, in its album reference or in its account
    reference is not given back by the round trip, and a valid identifier
    that is given back has no ['/'] in any field. *)
Theorem delimiter_not_escaped :
  (exists x item,
     valid_identifier x /\ photo_media_id x = Some item
     /\ PyStr.contains slash item = true
     /\ parse_identifier (as_string x) <> inr x)
  /\ (exists x album,
     valid_identifier x /\ album_media_id x = Some album
     /\ PyStr.contains slash album = true
     /\ parse_identifier (as_string x) <> inr x)
  /\ (exists x,
     valid_identifier x /\ PyStr.contains slash (config_entry_id x) = true
     /\ parse_identifier (as_string x) <> inr x)
  /\ (forall x,
     valid_identifier x -> parse_identifier (as_string x) = inr x ->
     slash_free x = true).
Proof.
  repeat split.
  - exists (mkPhotosIdentifier "acc" None (Some "b/c")), "b/c".
    repeat split; [now left | discriminate].
  - exists (mkPhotosIdentifier "acc" (Some "b/c") None), "b/c".
    repeat split; [now right | discriminate].
  - exists (mkPhotosIdentifier "x/p/y" None None).
    repeat split; [now left | discriminate].
  - apply roundtrip_only_slash_free.
Qed.

Lemma delimiter_not_escaped_witness :
  let x := mkPhotosIdentifier "acc" None (Some "1") in
  valid_identifier x /\ parse_identifier (as_string x) = inr x
  /\ slash_free x = true.
Proof.
  intros x.
  assert (Hv : valid_identifier x) by (left; reflexivity).
  assert (Hp : parse_identifier (as_string x) = inr x) by reflexivity.
  exact (conj Hv (conj Hp
           (proj2 (proj2 (proj2 delimiter_not_escaped)) x Hv Hp))).
Defined.

Lemma parse_item_no_album (s : string) (x : PhotosIdentifier) (photo : string) :
  parse_identifier s = inr x -> photo_media_id x = Some photo ->
  album_media_id x = None.
Proof.
  unfold parse_identifier.
  destruct (Nat.eqb _ 1); [intros [= <-]; reflexivity|].
  destruct (negb _); [discriminate|].
  destruct (String.eqb _ _); intros [= <-]; [reflexivity | discriminate].
Qed.

(** A string that decodes to an identifier with an album or an item
    reference is not the empty string of the root. *)
Lemma parse_ref_nonempty (s : string) (x : PhotosIdentifier) :
  parse_identifier s = inr x ->
  album_media_id x <> None \/ photo_media_id x <> None ->
  String.eqb s EmptyString = false.
Proof.
  destruct s as [|c s]; [|reflexivity].
  intros [= <-]. intros [H|H]; now elim H.
Qed.

(* ================================================================= *)
(** ** The catalog adapter *)

Section AdapterFacts.

Variable W : Type.
Variable DOMAIN : string.
Variable hass : HomeAssistant W.

(** One iteration of the pagination loop. *)
Lemma fetch_recent_step (fuel : nat) (client : Client W)
    (media_items : list MediaItem.t) (page_token : option string) (w : W) :
  fetch_recent W (S fuel) client media_items page_token w =
  if (Z.of_nat (length media_items) <? MAX_PHOTOS)%Z then
    match list_media_items client PAGE_SIZE page_token w with
    | (inl err, w') =>
        (Raised (BrowseError
           (Msg ("Error listing media items: " ++ str_api_error err))
           (Some err)), w', [ListMediaItems PAGE_SIZE page_token (inl err)])
    | (inr result, w') =>
        match nextPageToken result with
        | None =>
            (Returned (media_items ++ mediaItems result), w',
             [ListMediaItems PAGE_SIZE page_token (inr result)])
        | Some token =>
            let '(o, w2, evs) :=
              fetch_recent W fuel client (media_items ++ mediaItems result)
                (Some token) w' in
            (o, w2, ListMediaItems PAGE_SIZE page_token (inr result) :: evs)
        end
    end
  else (Returned media_items, w, []).
Proof.
  simpl. destruct (Z.of_nat (length media_items) <? MAX_PHOTOS)%Z; [|reflexivity].
  unfold bind, try_list_media_items.
  destruct (list_media_items client PAGE_SIZE page_token w) as [[err|result] w'];
    [reflexivity|].
  destruct (nextPageToken result) as [token|]; [|reflexivity].
  destruct (fetch_recent W fuel client _ _ w') as [[o w2] evs]. reflexivity.
Qed.

Lemma fetch_recent_done (fuel : nat) (client : Client W)
    (media_items : list MediaItem.t) (page_token : option string) (w : W) :
  (Z.of_nat (length media_items) <? MAX_PHOTOS)%Z = false ->
  fetch_recent W fuel client media_items page_token w
  = (Returned media_items, w, []).
Proof. intros H. destruct fuel; simpl; now rewrite H. Qed.

Lemma fetch_recent_out_of_fuel (client : Client W)
    (media_items : list MediaItem.t) (page_token : option string) (w : W) :
  (Z.of_nat (length media_items) <? MAX_PHOTOS)%Z = true ->
  fetch_recent W 0 client media_items page_token w = (OutOfFuel, w, []).
Proof. intros H. simpl. now rewrite H. Qed.

(** A run of the loop that ends issued its requests as [paged_listing]
    says. *)
Lemma fetch_recent_paged (client : Client W) (fuel : nat) :
  forall media_items page_token w,
    result_of (fetch_recent W fuel client media_items page_token w)
      <> OutOfFuel ->
    paged_listing (length media_items) page_token
      (events_of (fetch_recent W fuel client media_items page_token w)).
Proof.
  induction fuel as [|fuel IH]; intros media_items page_token w.
  - destruct (Z.of_nat (length media_items) <? MAX_PHOTOS)%Z eqn:E.
    + rewrite (fetch_recent_out_of_fuel _ _ _ _ E). intros H. now elim H.
    + rewrite (fetch_recent_done _ _ _ _ _ E). intros _. simpl.
      apply Z.ltb_ge in E. exact E.
  - rewrite fetch_recent_step.
    destruct (Z.of_nat (length media_items) <? MAX_PHOTOS)%Z eqn:E.
    + apply Z.ltb_lt in E.
      destruct (list_media_items client PAGE_SIZE page_token w)
        as [[err|result] w']; [intros _; simpl; auto|].
      destruct (nextPageToken result) as [token|] eqn:Et.
      * specialize (IH (media_items ++ mediaItems result) (Some token) w').
        destruct (fetch_recent W fuel client _ _ w') as [[o w2] evs].
        unfold result_of, events_of in *. simpl in *. intros Ho.
        rewrite Et. repeat split; trivial.
        rewrite <- length_app. now apply IH.
      * intros _. simpl. rewrite Et. auto.
    + intros _. simpl. apply Z.ltb_ge in E. exact E.
Qed.

(** Against a productive remote the loop ends within as many requests as
    items are missing to the threshold. *)
(** Closes the goal of a run that has ended at this request. *)
Ltac ended :=
  split; [discriminate | unfold events_of; cbn [snd length]; lia].

Lemma fetch_recent_terminates (client : Client W) :
  productive client ->
  forall fuel media_items page_token w,
    Z.to_nat MAX_PHOTOS - length media_items <= fuel ->
    result_of (fetch_recent W fuel client media_items page_token w)
      <> OutOfFuel
    /\ length (events_of (fetch_recent W fuel client media_items page_token w))
       <= Z.to_nat MAX_PHOTOS - length media_items.
Proof.
  intros Hprod. induction fuel as [|fuel IH]; intros media_items page_token w Hf.
  - rewrite fetch_recent_done; [ended|].
    apply Z.ltb_ge. unfold MAX_PHOTOS in *. lia.
  - rewrite fetch_recent_step.
    destruct (Z.of_nat (length media_items) <? MAX_PHOTOS)%Z eqn:E; [|ended].
    apply Z.ltb_lt in E. unfold MAX_PHOTOS in *.
    destruct (list_media_items client PAGE_SIZE page_token w)
      as [[err|result] w'] eqn:El; [ended|].
    destruct (nextPageToken result) as [token|] eqn:Et; [|ended].
    assert (Hne : mediaItems result <> []).
    { apply (Hprod _ _ _ _ _ El). rewrite Et. discriminate. }
    assert (Hlen : 0 < length (mediaItems result)).
    { destruct (mediaItems result); [now elim Hne | simpl; lia]. }
    specialize (IH (media_items ++ mediaItems result) (Some token) w').
    rewrite length_app in IH.
    destruct (fetch_recent W fuel client _ _ w') as [[o w2] evs].
    unfold result_of, events_of in *. cbn [fst snd length] in *.
    destruct IH as [IH1 IH2]; [lia|]. split; [exact IH1 | lia].
Qed.

(** A request answered with the API error ends the loop with the
    [BrowseError] raised from it. *)
Lemma fetch_recent_error (client : Client W) (size : Z)
    (token : option string) (err : GooglePhotosApiError) (fuel : nat) :
  forall media_items page_token w,
    In (ListMediaItems size token (inl err))
       (events_of (fetch_recent W fuel client media_items page_token w)) ->
    result_of (fetch_recent W fuel client media_items page_token w)
    = Raised (BrowseError
        (Msg ("Error listing media items: " ++ str_api_error err)) (Some err)).
Proof.
  induction fuel as [|fuel IH]; intros media_items page_token w.
  - simpl. destruct (Z.of_nat (length media_items) <? MAX_PHOTOS)%Z;
      intros H; now elim H.
  - rewrite fetch_recent_step.
    destruct (Z.of_nat (length media_items) <? MAX_PHOTOS)%Z;
      [|intros H; now elim H].
    destruct (list_media_items client PAGE_SIZE page_token w)
      as [[err'|result] w'].
    + intros [[= _ _ <-]|H]; [reflexivity | now elim H].
    + destruct (nextPageToken result) as [token'|].
      * specialize (IH (media_items ++ mediaItems result) (Some token') w').
        destruct (fetch_recent W fuel client _ _ w') as [[o w2] evs].
        unfold result_of, events_of in *. simpl in *.
        intros [H|H]; [discriminate H | now apply IH].
      * intros [H|H]; [discriminate H | now elim H].
Qed.

(** The browse of the recent album, by the run of its pagination loop. *)
Lemma browse_recent_album (fuel : nat) (s : string) (x : PhotosIdentifier)
    (entry : ConfigEntry.t W) (w : W) :
  parse_identifier s = inr x ->
  album_media_id x = Some RECENT_PHOTOS_ALBUM ->
  async_entry_for_domain_unique_id hass DOMAIN (config_entry_id x) = Some entry ->
  async_browse_media W DOMAIN hass fuel (mkItem s) w =
  let '(o, w', evs) :=
    fetch_recent W fuel (ConfigEntry.runtime_data entry) [] None w in
  (match o with
   | Returned media_items =>
       Returned
         (Browse.set_children
            (_build_account W DOMAIN entry
               (mkPhotosIdentifier (ConfigEntry.unique_id entry) None None))
            (map (fun media_item =>
                    _build_media_item DOMAIN
                      (mkPhotosIdentifier (config_entry_id x) None
                         (Some (MediaItem.id media_item)))
                      media_item)
                 media_items))
   | Raised e => Raised e
   | OutOfFuel => OutOfFuel
   end, w', EntryLookup (config_entry_id x) :: evs).
Proof.
  intros Hp Ha Hl. unfold async_browse_media. cbn [identifier].
  rewrite (parse_ref_nonempty s x Hp) by (left; rewrite Ha; discriminate).
  rewrite Hp. unfold bind at 1. unfold _async_config_entry. rewrite Hl, Ha.
  rewrite String.eqb_refl. cbn [negb]. unfold bind, ret.
  destruct (fetch_recent W fuel _ [] None w) as [[[media_items|e|] w'] evs];
    try reflexivity.
  now rewrite app_nil_r.
Qed.

(** The browse on an identifier of the account+item shape, as the code
    has it: the dispatch looks at the album reference only, so when the
    account is registered the item identifier takes the account branch
    and the node of the account is returned with the "Recent Photos"
    child; when the account is not registered the lookup raises. *)
Theorem browse_item_identifier (fuel : nat) (s : string)
    (x : PhotosIdentifier) (photo : string) (w : W) :
  parse_identifier s = inr x -> photo_media_id x = Some photo ->
  async_browse_media W DOMAIN hass fuel (mkItem s) w =
  match async_entry_for_domain_unique_id hass DOMAIN (config_entry_id x) with
  | Some entry =>
      (Returned
         (Browse.set_children (_build_account W DOMAIN entry x)
            [_build_album DOMAIN RECENT_PHOTOS_TITLE
               (mkPhotosIdentifier (config_entry_id x)
                  (Some RECENT_PHOTOS_ALBUM) None)]),
       w, [EntryLookup (config_entry_id x)])
  | None =>
      (Raised (BrowseError
         (Msg ("Could not find config entry for identifier: "
               ++ config_entry_id x)) None),
       w, [EntryLookup (config_entry_id x)])
  end.
Proof.
  intros Hp Hphoto. unfold async_browse_media. cbn [identifier].
  rewrite (parse_ref_nonempty s x Hp) by (right; rewrite Hphoto; discriminate).
  rewrite Hp, (parse_item_no_album s x photo Hp Hphoto).
  unfold bind, _async_config_entry, ret.
  now destruct (async_entry_for_domain_unique_id hass DOMAIN (config_entry_id x)).
Qed.

(** C4. Resolving an account+item identifier whose account is registered
    and whose item the remote returns: the URL is the base URL followed
    by [=dv] for an item with video metadata, and otherwise by [=h2048]
    when the height exceeds the width and by [=w2048] when it does not;
    the MIME type is the [mimeType] of the item. *)
Theorem resolve_item_url (s : string) (x : PhotosIdentifier) (photo : string)
    (entry : ConfigEntry.t W) (media_item : MediaItem.t) (w w' : W) :
  parse_identifier s = inr x -> photo_media_id x = Some photo ->
  async_entry_for_domain_unique_id hass DOMAIN (config_entry_id x) = Some entry ->
  get_media_item (ConfigEntry.runtime_data entry) photo w = (inr media_item, w') ->
  let metadata := MediaItem.mediaMetadata media_item in
  result_of (async_resolve_media W DOMAIN hass (mkItem s) w) =
  Returned
    (mkPlayMedia
       (match MediaItem.video metadata with
        | Some _ => MediaItem.baseUrl media_item ++ "=dv"
        | None =>
            if (MediaItem.height metadata >? MediaItem.width metadata)%Z
            then MediaItem.baseUrl media_item ++ "=h2048"
            else MediaItem.baseUrl media_item ++ "=w2048"
        end)
       (MediaItem.mimeType media_item)).
Proof.
  intros Hp Hphoto Hl Hg metadata. unfold async_resolve_media. cbn [identifier].
  rewrite Hp, Hphoto. unfold bind, _async_config_entry, await_get_media_item.
  rewrite Hl, Hg. unfold ret, result_of. cbn [fst].
  unfold is_video, _video_url, _media_url. fold metadata.
  destruct (MediaItem.video metadata); [reflexivity|].
  now destruct (MediaItem.height metadata >? MediaItem.width metadata)%Z.
Qed.

(** C5. The pagination of a browse of the recent album.  A run that ends
    issued its page requests one after the other as [paged_listing]
    says: each below the threshold of 50 items and with the token of the
    response before it, none after a response without a token.  Against a
    productive remote the run does end, within 50 page requests. *)
Theorem pagination_stops_at_first_chance (fuel : nat) (s : string)
    (x : PhotosIdentifier) (entry : ConfigEntry.t W) (w : W) :
  parse_identifier s = inr x ->
  album_media_id x = Some RECENT_PHOTOS_ALBUM ->
  async_entry_for_domain_unique_id hass DOMAIN (config_entry_id x) = Some entry ->
  let run := async_browse_media W DOMAIN hass fuel (mkItem s) w in
  (result_of run <> OutOfFuel ->
   exists evs, events_of run = EntryLookup (config_entry_id x) :: evs
               /\ paged_listing 0 None evs)
  /\ (productive (ConfigEntry.runtime_data entry) -> 50 <= fuel ->
      result_of run <> OutOfFuel /\ length (events_of run) <= 51).
Proof.
  intros Hp Ha Hl run. subst run.
  rewrite (browse_recent_album fuel s x entry w Hp Ha Hl).
  pose proof (fetch_recent_paged (ConfigEntry.runtime_data entry) fuel [] None w)
    as Hpaged.
  pose proof (fun H => fetch_recent_terminates (ConfigEntry.runtime_data entry)
                         H fuel [] None w) as Hterm.
  destruct (fetch_recent W fuel _ [] None w) as [[o w'] evs].
  unfold result_of, events_of in *. cbn [fst snd length] in *. split.
  - intros Ho. exists evs. split; [reflexivity|].
    apply Hpaged. destruct o; [discriminate | discriminate | now elim Ho].
  - intros Hprod Hfuel. destruct (Hterm Hprod) as [H1 H2].
    + unfold MAX_PHOTOS. simpl. lia.
    + unfold MAX_PHOTOS in H2. simpl in H2.
      split; [destruct o; [discriminate | discriminate | now elim H1] | lia].
Qed.

(** C6. Browsing an account-only identifier (not the empty identifier of
    the root) whose account is registered returns a node with exactly one
    child: the album node titled "Recent Photos" with the identifier
    [<account>/a/recent], not playable and expandable. *)
Theorem browse_account_recent_album (fuel : nat) (s : string)
    (x : PhotosIdentifier) (entry : ConfigEntry.t W) (w : W) :
  s <> EmptyString -> parse_identifier s = inr x ->
  album_media_id x = None -> photo_media_id x = None ->
  async_entry_for_domain_unique_id hass DOMAIN (config_entry_id x) = Some entry ->
  exists source,
    result_of (async_browse_media W DOMAIN hass fuel (mkItem s) w)
    = Returned source
    /\ Browse.children source =
       Some [Browse.mk DOMAIN (Some (config_entry_id x ++ "/a/recent")%string)
               MediaClass.ALBUM (OfClass MediaClass.ALBUM) "Recent Photos"
               false true None None None].
Proof.
  intros Hs Hp Ha Hphoto Hl. unfold async_browse_media. cbn [identifier].
  apply String.eqb_neq in Hs. rewrite Hs, Hp, Ha.
  unfold bind, _async_config_entry, ret. rewrite Hl.
  eexists. split; reflexivity.
Qed.

(** C7. In a browse of the recent album, a page request that the remote
    answers with the typed API error makes the whole browse raise one
    [BrowseError] whose cause is that error; no node, hence no partial
    child list, is returned. *)
Theorem listing_error_aborts_browse (fuel : nat) (s : string)
    (x : PhotosIdentifier) (entry : ConfigEntry.t W) (w : W)
    (size : Z) (token : option string) (err : GooglePhotosApiError) :
  parse_identifier s = inr x ->
  album_media_id x = Some RECENT_PHOTOS_ALBUM ->
  async_entry_for_domain_unique_id hass DOMAIN (config_entry_id x) = Some entry ->
  In (ListMediaItems size token (inl err))
     (events_of (async_browse_media W DOMAIN hass fuel (mkItem s) w)) ->
  result_of (async_browse_media W DOMAIN hass fuel (mkItem s) w)
  = Raised (BrowseError
      (Msg ("Error listing media items: " ++ str_api_error err)) (Some err)).
Proof.
  intros Hp Ha Hl. rewrite (browse_recent_album fuel s x entry w Hp Ha Hl).
  pose proof (fetch_recent_error (ConfigEntry.runtime_data entry) size token
                err fuel [] None w) as Herr.
  destruct (fetch_recent W fuel _ [] None w) as [[o w'] evs].
  unfold result_of, events_of in *. cbn [fst snd] in *.
  intros [H|H]; [discriminate H|]. now rewrite (Herr H).
Qed.

(** C8. Resolving an identifier that decodes without an item reference
    raises the validation [BrowseError] with no event at all: no account
    lookup, no remote call, the world untouched. *)
Theorem resolve_requires_item (s : string) (x : PhotosIdentifier) (w : W) :
  parse_identifier s = inr x -> photo_media_id x = None ->
  async_resolve_media W DOMAIN hass (mkItem s) w =
  (Raised (BrowseError
     (MsgRepr "Could not resolve identifier without a photo_media_id: " x)
     None), w, []).
Proof.
  intros Hp Hphoto. unfold async_resolve_media. cbn [identifier].
  now rewrite Hp, Hphoto.
Qed.

(** C9. Browsing an account+album identifier whose album reference is not
    ["recent"] fails after the account lookup alone, before any remote
    call: with the unsupported-album [BrowseError] when the account is
    registered, with the account-not-found [BrowseError] when it is
    not. *)
Theorem browse_unsupported_album (fuel : nat) (s : string)
    (x : PhotosIdentifier) (album : string) (w : W) :
  parse_identifier s = inr x -> album_media_id x = Some album ->
  album <> RECENT_PHOTOS_ALBUM ->
  let run := async_browse_media W DOMAIN hass fuel (mkItem s) w in
  result_of run =
    Raised (match async_entry_for_domain_unique_id hass DOMAIN
                    (config_entry_id x) with
            | Some _ => BrowseError (MsgRepr "Unsupported album: " x) None
            | None =>
                BrowseError
                  (Msg ("Could not find config entry for identifier: "
                        ++ config_entry_id x)) None
            end)
  /\ events_of run = [EntryLookup (config_entry_id x)]
  /\ existsb is_remote_call (events_of run) = false
  /\ world_of run = w.
Proof.
  intros Hp Ha Hne run. subst run. unfold async_browse_media. cbn [identifier].
  rewrite (parse_ref_nonempty s x Hp) by (left; rewrite Ha; discriminate).
  rewrite Hp. unfold bind, _async_config_entry.
  destruct (async_entry_for_domain_unique_id hass DOMAIN (config_entry_id x));
    [|repeat split].
  rewrite Ha. apply String.eqb_neq in Hne. rewrite Hne. repeat split.
Qed.

End AdapterFacts.

(* ================================================================= *)
(** ** The adapter on concrete collaborators *)

Example resolve_portrait :
  result_of (Fixture.resolve Fixture.thirty "acc/p/1")
  = Returned (mkPlayMedia "https://lh3/1=h2048" "image/jpeg").
Proof. reflexivity. Qed.

Example resolve_landscape :
  result_of (Fixture.resolve Fixture.thirty "acc/p/2")
  = Returned (mkPlayMedia "https://lh3/2=w2048" "image/jpeg").
Proof. reflexivity. Qed.

Example browse_thirty_requests :
  events_of (Fixture.browse Fixture.thirty 50 "acc/a/recent")
  = [EntryLookup "acc";
     ListMediaItems 100 None
       (inr (mkListResult (repeat Fixture.photo 30) (Some "next")));
     ListMediaItems 100 (Some "next")
       (inr (mkListResult (repeat Fixture.photo 30) (Some "next")))].
Proof. reflexivity. Qed.

Example browse_unknown_marker_lists_recent :
  events_of (Fixture.browse Fixture.failing 5 "acc/x/recent")
  = [EntryLookup "acc";
     ListMediaItems 100 None (inr (mkListResult [Fixture.photo] (Some "next")));
     ListMediaItems 100 (Some "next") (inl (ApiError "quota exceeded"))].
Proof. reflexivity. Qed.

Lemma productive_thirty : productive Fixture.thirty.
Proof.
  intros size token w result w' H Ht. simpl in H.
  injection H as <- _. discriminate.
Qed.

(** Against the remote whose pages are empty and always announce a
    further page, the loop is still running after any number of
    iterations, one request per iteration. *)
Lemma fetch_recent_endless (fuel : nat) :
  forall (page_token : option string) (n : nat),
    result_of (fetch_recent nat fuel Fixture.endless [] page_token n) = OutOfFuel
    /\ length (events_of (fetch_recent nat fuel Fixture.endless [] page_token n))
       = fuel.
Proof.
  induction fuel as [|fuel IH]; intros page_token n; [split; reflexivity|].
  rewrite fetch_recent_step.
  change (Z.of_nat (length (@nil MediaItem.t)) <? MAX_PHOTOS)%Z with true.
  cbv iota.
  change (list_media_items Fixture.endless PAGE_SIZE page_token n)
    with (@inr GooglePhotosApiError _ (mkListResult [] (Some "next")), S n).
  cbv iota beta. cbn [nextPageToken mediaItems app].
  specialize (IH (Some "next") (S n)).
  destruct (fetch_recent nat fuel Fixture.endless [] (Some "next") (S n))
    as [[o w2] evs].
  unfold result_of, events_of in *. cbn [fst snd length] in *.
  destruct IH as [-> ->]. split; reflexivity.
Qed.

Lemma identifier_roundtrip_examples :
  parse_identifier "acc" = inr (mkPhotosIdentifier "acc" None None)
  /\ parse_identifier "acc/a/recent"
     = inr (mkPhotosIdentifier "acc" (Some "recent") None)
  /\ parse_identifier "acc/p/1" = inr (mkPhotosIdentifier "acc" None (Some "1"))
  /\ parse_identifier "acc/a"
     = inl (BrowseError (Msg "Invalid identifier: acc/a") None).
Proof. repeat split. Qed.

(** C3. The browse of an identifier of the account+item shape, at the
    item identifier [acc/p/1] of a registered account: the request is not
    rejected.  The browse raises nothing and returns a node tree: an
    expandable directory node that carries the item identifier
    [acc/p/1], with the "Recent Photos" album as its child. *)
Theorem browse_item_identifier_not_rejected :
  parse_identifier "acc/p/1" = inr (mkPhotosIdentifier "acc" None (Some "1"))
  /\ (exists source,
        result_of (Fixture.browse Fixture.thirty 0 "acc/p/1") = Returned source
        /\ Browse.identifier source = Some "acc/p/1"
        /\ Browse.media_class source = MediaClass.DIRECTORY
        /\ Browse.can_expand source = true
        /\ Browse.children source =
           Some [Browse.mk Fixture.DOMAIN (Some "acc/a/recent")
                   MediaClass.ALBUM (OfClass MediaClass.ALBUM) "Recent Photos"
                   false true None None None])
  /\ events_of (Fixture.browse Fixture.thirty 0 "acc/p/1")
     = [EntryLookup "acc"]
  /\ ~ (exists e,
          result_of (Fixture.browse Fixture.thirty 0 "acc/p/1") = Raised e).
Proof.
  split; [reflexivity|]. split; [|split; [reflexivity|]].
  - eexists. repeat split.
  - intros [e H]. discriminate H.
Qed.

Lemma browse_item_identifier_witness :
  let x := mkPhotosIdentifier "acc" None (Some "1") in
  parse_identifier "acc/p/1" = inr x /\ photo_media_id x = Some "1"
  /\ Fixture.browse Fixture.thirty 0 "acc/p/1"
     = (Returned
          (Browse.set_children
             (_build_account nat Fixture.DOMAIN (Fixture.home Fixture.thirty) x)
             [_build_album Fixture.DOMAIN "Recent Photos"
                (mkPhotosIdentifier "acc" (Some "recent") None)]),
        0, [EntryLookup "acc"]).
Proof.
  intros x.
  exact (conj eq_refl (conj eq_refl
           (browse_item_identifier nat Fixture.DOMAIN
              (Fixture.hass Fixture.thirty) 0 "acc/p/1" x "1" 0
              eq_refl eq_refl))).
Defined.

Lemma resolve_item_url_witness :
  let x := mkPhotosIdentifier "acc" None (Some "3") in
  parse_identifier "acc/p/3" = inr x /\ photo_media_id x = Some "3"
  /\ get_media_item Fixture.thirty "3" 0 = (inr Fixture.movie, 1)
  /\ result_of (Fixture.resolve Fixture.thirty "acc/p/3")
     = Returned (mkPlayMedia "https://lh3/3=dv" "video/mp4").
Proof.
  intros x.
  exact (conj eq_refl (conj eq_refl (conj eq_refl
           (resolve_item_url nat Fixture.DOMAIN (Fixture.hass Fixture.thirty)
              "acc/p/3" x "3" (Fixture.home Fixture.thirty) Fixture.movie 0 1
              eq_refl eq_refl eq_refl eq_refl)))).
Defined.

(** C5, as stated, fails: the loop does not terminate for every sequence
    of responses.  Against the remote whose pages are empty and always
    carry a continuation token, the browse of [acc/a/recent] has not
    ended after any number of iterations. *)
Lemma pagination_endless_remote :
  ~ (exists fuel,
       result_of (Fixture.browse Fixture.endless fuel "acc/a/recent")
       <> OutOfFuel).
Proof.
  intros [fuel H]. apply H. unfold Fixture.browse.
  rewrite (browse_recent_album nat Fixture.DOMAIN (Fixture.hass Fixture.endless)
             fuel "acc/a/recent"
             (mkPhotosIdentifier "acc" (Some "recent") None)
             (Fixture.home Fixture.endless) 0 eq_refl eq_refl eq_refl).
  pose proof (fetch_recent_endless fuel None 0) as [Hr _].
  change (ConfigEntry.runtime_data (Fixture.home Fixture.endless))
    with Fixture.endless.
  destruct (fetch_recent nat fuel Fixture.endless [] None 0) as [[o w'] evs].
  unfold result_of in *. cbn [fst] in *. now rewrite Hr.
Qed.

Lemma pagination_stops_at_first_chance_witness :
  let x := mkPhotosIdentifier "acc" (Some "recent") None in
  let run := Fixture.browse Fixture.thirty 50 "acc/a/recent" in
  parse_identifier "acc/a/recent" = inr x
  /\ album_media_id x = Some RECENT_PHOTOS_ALBUM
  /\ productive Fixture.thirty
  /\ (exists evs, events_of run = EntryLookup "acc" :: evs
                  /\ paged_listing 0 None evs)
  /\ result_of run <> OutOfFuel /\ length (events_of run) <= 51.
Proof.
  intros x run.
  destruct (pagination_stops_at_first_chance nat Fixture.DOMAIN
              (Fixture.hass Fixture.thirty) 50 "acc/a/recent" x
              (Fixture.home Fixture.thirty) 0 eq_refl eq_refl eq_refl)
    as [Hpaged Hterm].
  destruct (Hterm productive_thirty (le_n 50)) as [Hr Hlen].
  exact (conj eq_refl (conj eq_refl (conj productive_thirty
           (conj (Hpaged Hr) (conj Hr Hlen))))).
Defined.

Lemma browse_account_recent_album_witness :
  let x := mkPhotosIdentifier "acc" None None in
  "acc" <> EmptyString /\ parse_identifier "acc" = inr x
  /\ exists source,
       result_of (Fixture.browse Fixture.thirty 0 "acc") = Returned source
       /\ Browse.children source =
          Some [Browse.mk Fixture.DOMAIN (Some "acc/a/recent")
                  MediaClass.ALBUM (OfClass MediaClass.ALBUM) "Recent Photos"
                  false true None None None].
Proof.
  intros x.
  assert (Hs : "acc" <> EmptyString) by discriminate.
  exact (conj Hs (conj eq_refl
           (browse_account_recent_album nat Fixture.DOMAIN
              (Fixture.hass Fixture.thirty) 0 "acc" x
              (Fixture.home Fixture.thirty) 0 Hs eq_refl eq_refl eq_refl
              eq_refl))).
Defined.

Lemma listing_error_aborts_browse_witness :
  let x := mkPhotosIdentifier "acc" (Some "recent") None in
  let run := Fixture.browse Fixture.failing 5 "acc/a/recent" in
  parse_identifier "acc/a/recent" = inr x
  /\ In (ListMediaItems 100 (Some "next") (inl (ApiError "quota exceeded")))
        (events_of run)
  /\ result_of run
     = Raised (BrowseError (Msg "Error listing media items: quota exceeded")
                 (Some (ApiError "quota exceeded"))).
Proof.
  intros x run.
  assert (Hin : In (ListMediaItems 100 (Some "next")
                      (inl (ApiError "quota exceeded"))) (events_of run)).
  { right. right. left. reflexivity. }
  exact (conj eq_refl (conj Hin
           (listing_error_aborts_browse nat Fixture.DOMAIN
              (Fixture.hass Fixture.failing) 5 "acc/a/recent" x
              (Fixture.home Fixture.failing) 0 100 (Some "next")
              (ApiError "quota exceeded") eq_refl eq_refl eq_refl Hin))).
Defined.

Lemma resolve_requires_item_witness :
  let x := mkPhotosIdentifier "acc" (Some "recent") None in
  parse_identifier "acc/a/recent" = inr x /\ photo_media_id x = None
  /\ Fixture.resolve Fixture.thirty "acc/a/recent"
     = (Raised (BrowseError
          (MsgRepr "Could not resolve identifier without a photo_media_id: " x)
          None), 0, []).
Proof.
  intros x.
  exact (conj eq_refl (conj eq_refl
           (resolve_requires_item nat Fixture.DOMAIN
              (Fixture.hass Fixture.thirty) "acc/a/recent" x 0
              eq_refl eq_refl))).
Defined.

(** C9, as stated, fails: the browse of [nope/a/old], an unsupported
    album of an account that is not registered, does not fail with the
    unsupported-album error but with the account-not-found error. *)
Lemma unsupported_album_unknown_account :
  parse_identifier "nope/a/old"
  = inr (mkPhotosIdentifier "nope" (Some "old") None)
  /\ result_of (Fixture.browse Fixture.thirty 0 "nope/a/old")
     = Raised (BrowseError
         (Msg "Could not find config entry for identifier: nope") None)
  /\ ~ (exists x cause,
          result_of (Fixture.browse Fixture.thirty 0 "nope/a/old")
          = Raised (BrowseError (MsgRepr "Unsupported album: " x) cause)).
Proof.
  repeat split. intros (x & cause & H). discriminate H.
Qed.

Lemma browse_unsupported_album_witness :
  let x := mkPhotosIdentifier "acc" (Some "old") None in
  let run := Fixture.browse Fixture.thirty 0 "acc/a/old" in
  parse_identifier "acc/a/old" = inr x /\ "old" <> RECENT_PHOTOS_ALBUM
  /\ result_of run = Raised (BrowseError (MsgRepr "Unsupported album: " x) None)
  /\ events_of run = [EntryLookup "acc"]
  /\ existsb is_remote_call (events_of run) = false
  /\ world_of run = 0.
Proof.
  intros x run.
  assert (Hne : "old" <> RECENT_PHOTOS_ALBUM) by discriminate.
  exact (conj eq_refl (conj Hne
           (browse_unsupported_album nat Fixture.DOMAIN
              (Fixture.hass Fixture.thirty) 0 "acc/a/old" x "old" 0
              eq_refl eq_refl Hne))).
Defined.

(* ================================================================= *)
(** ** Further properties of the codec *)

Lemma join_cons_char (sep d : ascii) (p : string) (ps : list string) :
  PyStr.join sep (String d p :: ps) = String d (PyStr.join sep (p :: ps)).
Proof. destruct ps; reflexivity. Qed.

(** Splitting loses nothing: joining the fields gives the string back. *)
Lemma join_split (sep : ascii) (s : string) :
  PyStr.join sep (PyStr.split sep s) = s.
Proof.
  induction s as [|d s IH]; [reflexivity|].
  cbn [PyStr.split]. destruct (Ascii.eqb_spec d sep) as [->|Hd].
  - pose proof (PyStrFacts.split_not_nil sep s) as Hne.
    destruct (PyStr.split sep s) as [|p ps]; [now elim Hne|].
    cbn [PyStr.join]. cbn [PyStr.join] in IH. simpl. now rewrite IH.
  - pose proof (PyStrFacts.split_not_nil sep s) as Hne.
    destruct (PyStr.split sep s) as [|p ps]; [now elim Hne|].
    rewrite join_cons_char. now rewrite IH.
Qed.

(** No field of a split holds the separator. *)
Lemma split_fields_free (sep : ascii) (s : string) :
  Forall (fun p => PyStr.contains sep p = false) (PyStr.split sep s).
Proof.
  induction s as [|d s IH]; [repeat constructor|].
  cbn [PyStr.split]. destruct (Ascii.eqb d sep) eqn:Hd.
  - constructor; [reflexivity | exact IH].
  - destruct (PyStr.split sep s) as [|p ps]; [repeat constructor; simpl; now rewrite Hd|].
    inversion IH as [|? ? Hp Hps]; subst.
    constructor; [simpl; now rewrite Hd | exact Hps].
Qed.

(** The fields behind a decoded identifier. *)
Lemma parse_ok_fields (s : string) (x : PhotosIdentifier) :
  parse_identifier s = inr x ->
  (PyStr.split slash s = [config_entry_id x]
   /\ album_media_id x = None /\ photo_media_id x = None)
  \/ (exists m r,
        PyStr.split slash s = [config_entry_id x; m; r]
        /\ ((m = PHOTO_SOURCE_IDENTIFIER_PHOTO
             /\ album_media_id x = None /\ photo_media_id x = Some r)
            \/ (m <> PHOTO_SOURCE_IDENTIFIER_PHOTO
                /\ album_media_id x = Some r /\ photo_media_id x = None))).
Proof.
  unfold parse_identifier.
  destruct (PyStr.split slash s) as [|a [|m [|r [|q qs]]]]; simpl;
    try discriminate.
  - intros [= <-]. left. auto.
  - destruct (String.eqb_spec m PHOTO_SOURCE_IDENTIFIER_PHOTO) as [Hm|Hm];
      intros [= <-]; right; exists m, r; simpl; split; auto.
Qed.

Lemma parse_ok_slash_free (s : string) (x : PhotosIdentifier) :
  parse_identifier s = inr x -> valid_identifier x /\ slash_free x = true.
Proof.
  intros Hp. pose proof (split_fields_free slash s) as Hfree.
  destruct x as [acc al ph]. unfold valid_identifier, slash_free.
  destruct (parse_ok_fields s _ Hp) as [(Hs & Ha & Hph)|(m & r & Hs & Hcase)];
    cbn [config_entry_id album_media_id photo_media_id] in *;
    rewrite Hs in Hfree.
  - subst. inversion Hfree as [|? ? H0 _]; subst.
    split; [now left|]. simpl. now rewrite H0.
  - inversion Hfree as [|? ? H0 H12]; subst.
    inversion H12 as [|? ? H1 H2']; subst.
    inversion H2' as [|? ? H2 _]; subst.
    destruct Hcase as [(_ & -> & ->)|(_ & -> & ->)]; simpl;
      rewrite H0, H2; split; auto.
Qed.

(** X1. The decoder raises exactly on the strings whose number of ['/']
    is neither 0 nor 2; the exception is the [BrowseError] "Invalid
    identifier" that quotes the whole string, without a cause. *)
Theorem parse_identifier_raises_on_count (s : string) :
  match parse_identifier s with
  | inl e =>
      e = BrowseError (Msg ("Invalid identifier: " ++ s)) None
      /\ PyStr.count slash s <> 0 /\ PyStr.count slash s <> 2
  | inr _ => PyStr.count slash s = 0 \/ PyStr.count slash s = 2
  end.
Proof.
  unfold parse_identifier. rewrite PyStrFacts.length_split.
  destruct (PyStr.count slash s) as [|[|[|n]]]; simpl.
  - now left.
  - repeat split; discriminate.
  - destruct (String.eqb _ _); now right.
  - repeat split; discriminate.
Qed.

(** X2. Whatever the decoder returns is a well-formed identifier: not
    both references set, no ['/'] in any field, and encoding it and
    decoding again gives the same identifier. *)
Theorem parse_identifier_wellformed (s : string) (x : PhotosIdentifier) :
  parse_identifier s = inr x ->
  valid_identifier x /\ slash_free x = true
  /\ parse_identifier (as_string x) = inr x.
Proof.
  intros Hp. destruct (parse_ok_slash_free s x Hp) as [Hv Hs].
  repeat split; trivial. now apply roundtrip_slash_free.
Qed.

Lemma parse_identifier_wellformed_witness :
  let x := mkPhotosIdentifier "acc" (Some "foo") None in
  parse_identifier "acc/x/foo" = inr x
  /\ valid_identifier x /\ slash_free x = true
  /\ parse_identifier "acc/a/foo" = inr x.
Proof.
  intros x.
  exact (conj eq_refl (parse_identifier_wellformed "acc/x/foo" x eq_refl)).
Defined.

(** X3. Decoding and then encoding gives the string back, except that a
    middle field that is neither ["a"] nor ["p"] is rewritten to ["a"]. *)
Theorem decode_then_encode (s : string) (x : PhotosIdentifier) :
  parse_identifier s = inr x ->
  as_string x = s
  \/ (exists a m r,
        s = (a ++ "/" ++ m ++ "/" ++ r)%string
        /\ m <> "a"%string /\ m <> "p"%string
        /\ as_string x = (a ++ "/a/" ++ r)%string).
Proof.
  intros Hp. pose proof (join_split slash s) as Hj.
  destruct x as [acc al ph].
  destruct (parse_ok_fields s _ Hp) as [(Hs & Ha & Hph)|(m & r & Hs & Hcase)];
    cbn [config_entry_id album_media_id photo_media_id] in *;
    rewrite Hs in Hj; cbn [PyStr.join] in Hj.
  - subst. now left.
  - destruct Hcase as [(-> & -> & ->)|(Hm & -> & ->)].
    + left. now rewrite <- Hj.
    + destruct (String.eqb_spec m "a") as [->|Hma].
      * left. now rewrite <- Hj.
      * right. exists acc, m, r. repeat split; trivial. now rewrite <- Hj.
Qed.

Lemma decode_then_encode_witness :
  let x := mkPhotosIdentifier "acc" (Some "foo") None in
  parse_identifier "acc/x/foo" = inr x
  /\ (as_string x = "acc/x/foo"
      \/ (exists a m r,
            "acc/x/foo" = (a ++ "/" ++ m ++ "/" ++ r)%string
            /\ m <> "a"%string /\ m <> "p"%string
            /\ as_string x = (a ++ "/a/" ++ r)%string)).
Proof.
  intros x. exact (conj eq_refl (decode_then_encode "acc/x/foo" x eq_refl)).
Defined.

(** X4. On valid identifiers without ['/'] in their fields the encoding
    is injective: two of them with the same string are equal. *)
Theorem as_string_injective (x y : PhotosIdentifier) :
  valid_identifier x -> valid_identifier y ->
  slash_free x = true -> slash_free y = true ->
  as_string x = as_string y -> x = y.
Proof.
  intros Hvx Hvy Hsx Hsy He.
  pose proof (roundtrip_slash_free x Hvx Hsx) as Hx.
  pose proof (roundtrip_slash_free y Hvy Hsy) as Hy.
  rewrite He, Hy in Hx. now injection Hx.
Qed.

Lemma as_string_injective_witness :
  let x := mkPhotosIdentifier "acc" None (Some "1") in
  valid_identifier x /\ slash_free x = true /\ as_string x = "acc/p/1"
  /\ x = x.
Proof.
  intros x.
  assert (Hv : valid_identifier x) by (left; reflexivity).
  exact (conj Hv (conj eq_refl (conj eq_refl
           (as_string_injective x x Hv Hv eq_refl eq_refl eq_refl)))).
Defined.

(** X5. An identifier with both references set is never given back by
    the round trip: the encoding keeps the item reference only, and for
    fields without ['/'] the decoder returns the item identifier, the
    album reference lost. *)
Theorem both_references_lose_album (account album photo : string) :
  let x := mkPhotosIdentifier account (Some album) (Some photo) in
  parse_identifier (as_string x) <> inr x
  /\ (PyStr.contains slash account = false ->
      PyStr.contains slash photo = false ->
      parse_identifier (as_string x)
      = inr (mkPhotosIdentifier account None (Some photo))).
Proof.
  intros x. split.
  - intros Hp. destruct (parse_ok_slash_free _ _ Hp) as [[Hv|Hv] _];
      discriminate Hv.
  - intros Ha Hph. unfold as_string, x.
    cbn [photo_media_id album_media_id config_entry_id].
    now rewrite (parse_three account PHOTO_SOURCE_IDENTIFIER_PHOTO photo
                   Ha eq_refl Hph).
Qed.

Lemma both_references_lose_album_witness :
  PyStr.contains slash "acc" = false /\ PyStr.contains slash "1" = false
  /\ parse_identifier
       (as_string (mkPhotosIdentifier "acc" (Some "recent") (Some "1")))
     = inr (mkPhotosIdentifier "acc" None (Some "1")).
Proof.
  exact (conj eq_refl (conj eq_refl
           (proj2 (both_references_lose_album "acc" "recent" "1")
              eq_refl eq_refl))).
Defined.

(* ================================================================= *)
(** ** Further properties of the adapter *)

Section AdapterTraces.

Variable W : Type.
Variable DOMAIN : string.
Variable hass : HomeAssistant W.

(** The loop performs page requests only. *)
Lemma fetch_recent_only_lists (client : Client W) (fuel : nat) :
  forall media_items page_token w,
    forallb is_list_call
      (events_of (fetch_recent W fuel client media_items page_token w)) = true.
Proof.
  induction fuel as [|fuel IH]; intros media_items page_token w.
  - simpl. now destruct (Z.of_nat (length media_items) <? MAX_PHOTOS)%Z.
  - rewrite fetch_recent_step.
    destruct (Z.of_nat (length media_items) <? MAX_PHOTOS)%Z; [|reflexivity].
    destruct (list_media_items client PAGE_SIZE page_token w)
      as [[err|result] w']; [reflexivity|].
    destruct (nextPageToken result) as [token|]; [|reflexivity].
    specialize (IH (media_items ++ mediaItems result) (Some token) w').
    destruct (fetch_recent W fuel client _ _ w') as [[o w2] evs].
    exact IH.
Qed.

(** What the loop returns is what it started with followed by the items
    of every page it received. *)
Lemma fetch_recent_accumulates (client : Client W) (fuel : nat) :
  forall media_items page_token w fetched,
    result_of (fetch_recent W fuel client media_items page_token w)
    = Returned fetched ->
    fetched = media_items
      ++ listed_items
           (events_of (fetch_recent W fuel client media_items page_token w)).
Proof.
  induction fuel as [|fuel IH]; intros media_items page_token w fetched.
  - simpl. destruct (Z.of_nat (length media_items) <? MAX_PHOTOS)%Z;
      [discriminate|]. intros [= <-]. simpl. now rewrite app_nil_r.
  - rewrite fetch_recent_step.
    destruct (Z.of_nat (length media_items) <? MAX_PHOTOS)%Z;
      [|intros [= <-]; simpl; now rewrite app_nil_r].
    destruct (list_media_items client PAGE_SIZE page_token w)
      as [[err|result] w']; [discriminate|].
    destruct (nextPageToken result) as [token|];
      [|intros [= <-]; simpl; now rewrite app_nil_r].
    specialize (IH (media_items ++ mediaItems result) (Some token) w' fetched).
    destruct (fetch_recent W fuel client _ _ w') as [[o w2] evs].
    unfold result_of, events_of in *. cbn [fst snd] in *.
    intros Ho. rewrite (IH Ho). cbn [listed_items]. now rewrite app_assoc.
Qed.

(** What the loop returns reaches the threshold, unless the last page
    came without a continuation token. *)
Lemma fetch_recent_minimum (client : Client W) (fuel : nat) :
  forall media_items page_token w fetched,
    result_of (fetch_recent W fuel client media_items page_token w)
    = Returned fetched ->
    (MAX_PHOTOS <= Z.of_nat (length fetched))%Z
    \/ ends_without_token
         (events_of (fetch_recent W fuel client media_items page_token w)).
Proof.
  induction fuel as [|fuel IH]; intros media_items page_token w fetched.
  - simpl. destruct (Z.of_nat (length media_items) <? MAX_PHOTOS)%Z eqn:E;
      [discriminate|]. intros [= <-]. left. now apply Z.ltb_ge.
  - rewrite fetch_recent_step.
    destruct (Z.of_nat (length media_items) <? MAX_PHOTOS)%Z eqn:E;
      [|intros [= <-]; left; now apply Z.ltb_ge].
    destruct (list_media_items client PAGE_SIZE page_token w)
      as [[err|result] w']; [discriminate|].
    destruct (nextPageToken result) as [token|] eqn:Et.
    + specialize (IH (media_items ++ mediaItems result) (Some token) w' fetched).
      destruct (fetch_recent W fuel client _ _ w') as [[o w2] evs].
      unfold result_of, events_of in *. cbn [fst snd] in *.
      intros Ho. destruct (IH Ho) as [H|(size & tok & r & Hlast & Hr)];
        [now left|]. right. exists size, tok, r. split; [|exact Hr].
      destruct evs as [|ev evs]; [discriminate Hlast | exact Hlast].
    + intros _. right. exists PAGE_SIZE, page_token, result. now split.
Qed.

(** X6. The browse of the empty identifier lists the loaded accounts: one
    child per loaded entry, in the order of the registry, each identified
    by the entry's unique id and titled by its title, expandable, not
    playable, without children of its own.  The browse performs no lookup
    and no remote call and leaves the world as it is. *)
Theorem browse_root_lists_accounts (fuel : nat) (w : W) :
  exists root nodes,
    async_browse_media W DOMAIN hass fuel (mkItem EmptyString) w
    = (Returned root, w, [])
    /\ Browse.identifier root = None
    /\ Browse.children root = Some nodes
    /\ map Browse.identifier nodes
       = map (fun entry => Some (ConfigEntry.unique_id entry))
           (async_loaded_entries hass DOMAIN)
    /\ map Browse.title nodes
       = map ConfigEntry.title (async_loaded_entries hass DOMAIN)
    /\ Forall (fun node => Browse.children node = None
                           /\ Browse.can_expand node = true
                           /\ Browse.can_play node = false) nodes.
Proof.
  unfold async_browse_media. cbn [identifier String.eqb]. unfold ret.
  eexists. eexists. split; [reflexivity|]. cbn [Browse.identifier Browse.children].
  repeat split.
  - now rewrite map_map.
  - now rewrite map_map.
  - apply Forall_forall. intros node Hin. apply in_map_iff in Hin.
    destruct Hin as (entry & <- & _). repeat split.
Qed.

(** X7. An identifier whose number of ['/'] is neither 0 nor 2 is
    rejected by the browse and by the resolve alike, with the "Invalid
    identifier" [BrowseError], before any lookup or remote call. *)
Theorem malformed_identifier_rejected (fuel : nat) (s : string) (w : W) :
  PyStr.count slash s <> 0 -> PyStr.count slash s <> 2 ->
  let e := BrowseError (Msg ("Invalid identifier: " ++ s)) None in
  async_browse_media W DOMAIN hass fuel (mkItem s) w = (Raised e, w, [])
  /\ async_resolve_media W DOMAIN hass (mkItem s) w = (Raised e, w, []).
Proof.
  intros H0 H2 e.
  assert (Hp : parse_identifier s = inl e).
  { unfold parse_identifier. rewrite PyStrFacts.length_split.
    destruct (PyStr.count slash s) as [|[|[|n]]]; try reflexivity;
      [now elim H0 | now elim H2]. }
  assert (Hs : String.eqb s EmptyString = false).
  { destruct s; [now elim H0 | reflexivity]. }
  unfold async_browse_media, async_resolve_media. cbn [identifier].
  now rewrite Hs, Hp.
Qed.

(** X8. The browse of any non-empty identifier that decodes performs the
    account lookup first; when the account is not registered it raises
    the "Could not find config entry" [BrowseError] after that one
    lookup, whatever the shape of the identifier, and calls no remote. *)
Theorem browse_unknown_account (fuel : nat) (s : string)
    (x : PhotosIdentifier) (w : W) :
  s <> EmptyString -> parse_identifier s = inr x ->
  async_entry_for_domain_unique_id hass DOMAIN (config_entry_id x) = None ->
  async_browse_media W DOMAIN hass fuel (mkItem s) w
  = (Raised (BrowseError
       (Msg ("Could not find config entry for identifier: "
             ++ config_entry_id x)) None),
     w, [EntryLookup (config_entry_id x)]).
Proof.
  intros Hs Hp Hl. unfold async_browse_media. cbn [identifier].
  apply String.eqb_neq in Hs. rewrite Hs, Hp.
  unfold bind, _async_config_entry. now rewrite Hl.
Qed.

(** X9. The resolve of an item identifier whose account is not
    registered raises the "Could not find config entry" [BrowseError]
    after the lookup, without any remote call. *)
Theorem resolve_unknown_account (s : string) (x : PhotosIdentifier)
    (photo : string) (w : W) :
  parse_identifier s = inr x -> photo_media_id x = Some photo ->
  async_entry_for_domain_unique_id hass DOMAIN (config_entry_id x) = None ->
  async_resolve_media W DOMAIN hass (mkItem s) w
  = (Raised (BrowseError
       (Msg ("Could not find config entry for identifier: "
             ++ config_entry_id x)) None),
     w, [EntryLookup (config_entry_id x)]).
Proof.
  intros Hp Hphoto Hl. unfold async_resolve_media. cbn [identifier].
  rewrite Hp, Hphoto. unfold bind, _async_config_entry. now rewrite Hl.
Qed.

(** X10. When the remote answers the fetch of the item with the typed API
    error, the resolve lets that error through as it is: it is not turned
    into a [BrowseError], unlike an error of the page listing. *)
Theorem resolve_api_error_uncaught (s : string) (x : PhotosIdentifier)
    (photo : string) (entry : ConfigEntry.t W)
    (err : GooglePhotosApiError) (w w' : W) :
  parse_identifier s = inr x -> photo_media_id x = Some photo ->
  async_entry_for_domain_unique_id hass DOMAIN (config_entry_id x) = Some entry ->
  get_media_item (ConfigEntry.runtime_data entry) photo w = (inl err, w') ->
  async_resolve_media W DOMAIN hass (mkItem s) w
  = (Raised (Uncaught err), w',
     [EntryLookup (config_entry_id x); GetMediaItem photo (inl err)]).
Proof.
  intros Hp Hphoto Hl Hg. unfold async_resolve_media. cbn [identifier].
  rewrite Hp, Hphoto. unfold bind, _async_config_entry, await_get_media_item.
  now rewrite Hl, Hg.
Qed.

(** X11. Whatever its input, a resolve never lists pages, looks the
    account up at most once and calls the remote at most once. *)
Theorem resolve_trace_bound (item : MediaSourceItem) (w : W) :
  let evs := events_of (async_resolve_media W DOMAIN hass item w) in
  existsb is_list_call evs = false
  /\ length (filter is_lookup evs) <= 1
  /\ length (filter is_remote_call evs) <= 1.
Proof.
  unfold async_resolve_media.
  destruct (parse_identifier (identifier item)) as [e|x]; [simpl; auto|].
  destruct (photo_media_id x) as [photo|]; [|simpl; auto].
  unfold bind, _async_config_entry, await_get_media_item.
  destruct (async_entry_for_domain_unique_id hass DOMAIN (config_entry_id x))
    as [entry|]; [|simpl; auto].
  destruct (get_media_item (ConfigEntry.runtime_data entry) photo w)
    as [[err|media_item] w']; simpl; auto.
Qed.

(** X12. Whatever its input and however long it runs, a browse never
    fetches a single media item, and its account lookup, if any, is its
    first effect and the only one: everything after it is a page
    request. *)
Theorem browse_trace_shape (fuel : nat) (item : MediaSourceItem) (w : W) :
  let evs := events_of (async_browse_media W DOMAIN hass fuel item w) in
  existsb is_get_call evs = false
  /\ (evs = []
      \/ exists account rest,
           evs = EntryLookup account :: rest
           /\ forallb is_list_call rest = true).
Proof.
  unfold async_browse_media.
  destruct (String.eqb (identifier item) EmptyString); [simpl; auto|].
  destruct (parse_identifier (identifier item)) as [e|x]; [simpl; auto|].
  unfold bind at 1. unfold _async_config_entry.
  destruct (async_entry_for_domain_unique_id hass DOMAIN (config_entry_id x))
    as [entry|]; [|simpl; split; [reflexivity|right; eauto]].
  destruct (album_media_id x) as [album|];
    [|simpl; split; [reflexivity|right; eauto]].
  destruct (negb (String.eqb album RECENT_PHOTOS_ALBUM));
    [simpl; split; [reflexivity|right; eauto]|].
  unfold bind, ret.
  pose proof (fetch_recent_only_lists (ConfigEntry.runtime_data entry) fuel
                [] None w) as Hl.
  destruct (fetch_recent W fuel _ [] None w) as [[[fetched|e|] w'] evs];
    unfold events_of in *; cbn [fst snd app] in *;
    try rewrite app_nil_r.
  all: split; [|right; exists (config_entry_id x), evs; now split].
  all: cbn [existsb is_get_call orb];
    clear -Hl; induction evs as [|ev evs IH]; [reflexivity|];
    simpl in Hl; apply andb_prop in Hl as [Hev Hl];
    destruct ev; try discriminate; simpl; now apply IH.
Qed.

End AdapterTraces.

Section AdapterNavigation.

Variable W : Type.
Variable DOMAIN : string.
Variable hass : HomeAssistant W.

(** X13. When the browse of the recent album returns, its node is the
    account node of the entry, and its children are the items of every
    page the browse received, all of them and in the order received, one
    leaf node each; nothing is cut at the threshold. *)
Theorem recent_children_are_listed_items (fuel : nat) (s : string)
    (x : PhotosIdentifier) (entry : ConfigEntry.t W) (w : W)
    (source : BrowseMediaSource) :
  parse_identifier s = inr x ->
  album_media_id x = Some RECENT_PHOTOS_ALBUM ->
  async_entry_for_domain_unique_id hass DOMAIN (config_entry_id x) = Some entry ->
  let run := async_browse_media W DOMAIN hass fuel (mkItem s) w in
  result_of run = Returned source ->
  Browse.identifier source = Some (ConfigEntry.unique_id entry)
  /\ Browse.title source = ConfigEntry.title entry
  /\ Browse.children source
     = Some (map (fun media_item =>
                    _build_media_item DOMAIN
                      (mkPhotosIdentifier (config_entry_id x) None
                         (Some (MediaItem.id media_item)))
                      media_item)
                 (listed_items (events_of run))).
Proof.
  intros Hp Ha Hl run. subst run.
  rewrite (browse_recent_album W DOMAIN hass fuel s x entry w Hp Ha Hl).
  pose proof (fetch_recent_accumulates W (ConfigEntry.runtime_data entry) fuel
                [] None w) as Hacc.
  destruct (fetch_recent W fuel _ [] None w) as [[[fetched|e|] w'] evs];
    unfold result_of, events_of in *; cbn [fst snd] in *; try discriminate.
  intros [= <-]. cbn [listed_items].
  pose proof (Hacc fetched eq_refl) as Hf. cbn [app] in Hf. rewrite <- Hf.
  repeat split.
Qed.

(** X14. When the browse of the recent album returns, it has at least 50
    children, unless the last page came without a continuation token:
    fewer children mean that the library ran out. *)
Theorem recent_children_minimum (fuel : nat) (s : string)
    (x : PhotosIdentifier) (entry : ConfigEntry.t W) (w : W)
    (source : BrowseMediaSource) (nodes : list BrowseMediaSource) :
  parse_identifier s = inr x ->
  album_media_id x = Some RECENT_PHOTOS_ALBUM ->
  async_entry_for_domain_unique_id hass DOMAIN (config_entry_id x) = Some entry ->
  let run := async_browse_media W DOMAIN hass fuel (mkItem s) w in
  result_of run = Returned source -> Browse.children source = Some nodes ->
  50 <= length nodes \/ ends_without_token (events_of run).
Proof.
  intros Hp Ha Hl run. subst run.
  rewrite (browse_recent_album W DOMAIN hass fuel s x entry w Hp Ha Hl).
  pose proof (fetch_recent_minimum W (ConfigEntry.runtime_data entry) fuel
                [] None w) as Hmin.
  destruct (fetch_recent W fuel _ [] None w) as [[[fetched|e|] w'] evs];
    unfold result_of, events_of in *; cbn [fst snd] in *; try discriminate.
  intros [= <-]. cbn [Browse.children Browse.set_children]. intros [= <-].
  rewrite length_map.
  destruct (Hmin fetched eq_refl) as [H|(size & tok & r & Hlast & Hr)].
  - left. unfold MAX_PHOTOS in H. lia.
  - right. exists size, tok, r. split; [|exact Hr].
    destruct evs as [|ev evs]; [discriminate Hlast | exact Hlast].
Qed.


(** X16. The album identifier that the account browse hands out is one
    the browse accepts: for a registered account without ['/'] in its
    id, browsing [<account>/a/recent] against a remote whose first page
    has no continuation token performs the lookup and that one request
    and returns the account node with one leaf per item of the page. *)
Theorem album_child_browsable (fuel : nat) (account : string)
    (entry : ConfigEntry.t W) (page : ListResult) (w w' : W) :
  PyStr.contains slash account = false ->
  async_entry_for_domain_unique_id hass DOMAIN account = Some entry ->
  list_media_items (ConfigEntry.runtime_data entry) PAGE_SIZE None w
  = (inr page, w') ->
  nextPageToken page = None ->
  async_browse_media W DOMAIN hass (S fuel)
    (mkItem (as_string
               (mkPhotosIdentifier account (Some RECENT_PHOTOS_ALBUM) None))) w
  = (Returned
       (Browse.set_children
          (_build_account W DOMAIN entry
             (mkPhotosIdentifier (ConfigEntry.unique_id entry) None None))
          (map (fun media_item =>
                  _build_media_item DOMAIN
                    (mkPhotosIdentifier account None
                       (Some (MediaItem.id media_item)))
                    media_item)
               (mediaItems page))),
     w', [EntryLookup account; ListMediaItems PAGE_SIZE None (inr page)]).
Proof.
  intros Hfree Hl Hpage Htoken.
  assert (Hp : parse_identifier
                 (as_string
                    (mkPhotosIdentifier account (Some RECENT_PHOTOS_ALBUM) None))
               = inr (mkPhotosIdentifier account (Some RECENT_PHOTOS_ALBUM) None)).
  { apply roundtrip_slash_free; [now right|].
    unfold slash_free. simpl. now rewrite Hfree. }
  rewrite (browse_recent_album W DOMAIN hass (S fuel) _ _ entry w Hp eq_refl Hl).
  rewrite fetch_recent_step.
  change (Z.of_nat (length (@nil MediaItem.t)) <? MAX_PHOTOS)%Z with true.
  cbv iota. rewrite Hpage, Htoken. reflexivity.
Qed.

(** X17. The account identifier that the root browse hands out is one
    the browse accepts: for a loaded entry with a non-empty unique id
    without ['/'] that the registry finds by that id, the node listed
    under the root is the node that browsing its identifier returns,
    now with the "Recent Photos" album as its only child. *)
Theorem root_child_browsable (fuel : nat) (entry : ConfigEntry.t W) (w : W) :
  In entry (async_loaded_entries hass DOMAIN) ->
  ConfigEntry.unique_id entry <> EmptyString ->
  PyStr.contains slash (ConfigEntry.unique_id entry) = false ->
  async_entry_for_domain_unique_id hass DOMAIN (ConfigEntry.unique_id entry)
  = Some entry ->
  let account := ConfigEntry.unique_id entry in
  let node :=
    _build_account W DOMAIN entry (mkPhotosIdentifier account None None) in
  (exists root nodes,
     result_of (async_browse_media W DOMAIN hass fuel (mkItem EmptyString) w)
     = Returned root
     /\ Browse.children root = Some nodes /\ In node nodes)
  /\ Browse.identifier node = Some account
  /\ async_browse_media W DOMAIN hass fuel (mkItem account) w
     = (Returned
          (Browse.set_children node
             [_build_album DOMAIN RECENT_PHOTOS_TITLE
                (mkPhotosIdentifier account (Some RECENT_PHOTOS_ALBUM) None)]),
        w, [EntryLookup account]).
Proof.
  intros Hin Hne Hfree Hl account node. repeat split.
  - unfold async_browse_media. cbn [identifier String.eqb]. unfold ret, result_of.
    cbn [fst]. eexists. eexists. split; [reflexivity|].
    cbn [Browse.children]. split; [reflexivity|].
    apply in_map_iff. exists entry. now split.
  - unfold async_browse_media. cbn [identifier].
    apply String.eqb_neq in Hne. fold account in Hne, Hfree, Hl.
    rewrite Hne, (parse_account_only account Hfree).
    cbn [config_entry_id album_media_id].
    unfold bind, _async_config_entry, ret. now rewrite Hl.
Qed.

(** X18. The item identifier that the album browse hands out is one the
    resolve accepts: for an account id and an item id without ['/'] and
    a registered account, resolving [<account>/p/<item id>] looks the
    account up and asks the remote for exactly that item, whatever the
    remote answers. *)
Theorem item_child_resolvable (account photo : string)
    (entry : ConfigEntry.t W) (w : W) :
  PyStr.contains slash account = false ->
  PyStr.contains slash photo = false ->
  async_entry_for_domain_unique_id hass DOMAIN account = Some entry ->
  let run :=
    async_resolve_media W DOMAIN hass
      (mkItem (as_string (mkPhotosIdentifier account None (Some photo)))) w in
  let answer := get_media_item (ConfigEntry.runtime_data entry) photo w in
  events_of run = [EntryLookup account; GetMediaItem photo (fst answer)]
  /\ world_of run = snd answer.
Proof.
  intros Ha Hph Hl run answer. subst run answer.
  unfold async_resolve_media. cbn [identifier].
  assert (Hp : parse_identifier
                 (as_string (mkPhotosIdentifier account None (Some photo)))
               = inr (mkPhotosIdentifier account None (Some photo))).
  { apply roundtrip_slash_free; [now left|].
    unfold slash_free. simpl. now rewrite Ha, Hph. }
  rewrite Hp. cbn [photo_media_id config_entry_id].
  unfold bind, _async_config_entry, await_get_media_item. rewrite Hl.
  destruct (get_media_item (ConfigEntry.runtime_data entry) photo w)
    as [[err|media_item] w']; split; reflexivity.
Qed.

End AdapterNavigation.

(* ================================================================= *)
(** ** The further properties on concrete collaborators *)

Lemma malformed_identifier_rejected_witness :
  PyStr.count slash "acc/a" <> 0 /\ PyStr.count slash "acc/a" <> 2
  /\ Fixture.browse Fixture.single 0 "acc/a"
     = (Raised (BrowseError (Msg "Invalid identifier: acc/a") None), 0, [])
  /\ Fixture.resolve Fixture.single "acc/a"
     = (Raised (BrowseError (Msg "Invalid identifier: acc/a") None), 0, []).
Proof.
  assert (H0 : PyStr.count slash "acc/a" <> 0) by discriminate.
  assert (H2 : PyStr.count slash "acc/a" <> 2) by discriminate.
  exact (conj H0 (conj H2
           (malformed_identifier_rejected nat Fixture.DOMAIN
              (Fixture.hass Fixture.single) 0 "acc/a" 0 H0 H2))).
Defined.

Lemma browse_unknown_account_witness :
  "nope/a/recent"%string <> EmptyString
  /\ parse_identifier "nope/a/recent"
     = inr (mkPhotosIdentifier "nope" (Some "recent") None)
  /\ Fixture.browse Fixture.single 5 "nope/a/recent"
     = (Raised (BrowseError
          (Msg "Could not find config entry for identifier: nope") None),
        0, [EntryLookup "nope"]).
Proof.
  assert (Hs : "nope/a/recent"%string <> EmptyString) by discriminate.
  exact (conj Hs (conj eq_refl
           (browse_unknown_account nat Fixture.DOMAIN
              (Fixture.hass Fixture.single) 5 "nope/a/recent"
              (mkPhotosIdentifier "nope" (Some "recent") None) 0
              Hs eq_refl eq_refl))).
Defined.

Lemma resolve_unknown_account_witness :
  parse_identifier "nope/p/1" = inr (mkPhotosIdentifier "nope" None (Some "1"))
  /\ Fixture.resolve Fixture.single "nope/p/1"
     = (Raised (BrowseError
          (Msg "Could not find config entry for identifier: nope") None),
        0, [EntryLookup "nope"]).
Proof.
  exact (conj eq_refl
           (resolve_unknown_account nat Fixture.DOMAIN
              (Fixture.hass Fixture.single) "nope/p/1"
              (mkPhotosIdentifier "nope" None (Some "1")) "1" 0
              eq_refl eq_refl eq_refl)).
Defined.

Lemma resolve_api_error_uncaught_witness :
  parse_identifier "acc/p/9" = inr (mkPhotosIdentifier "acc" None (Some "9"))
  /\ get_media_item Fixture.single "9" 0 = (inl (ApiError "not found"), 1)
  /\ Fixture.resolve Fixture.single "acc/p/9"
     = (Raised (Uncaught (ApiError "not found")), 1,
        [EntryLookup "acc"; GetMediaItem "9" (inl (ApiError "not found"))]).
Proof.
  exact (conj eq_refl (conj eq_refl
           (resolve_api_error_uncaught nat Fixture.DOMAIN
              (Fixture.hass Fixture.single) "acc/p/9"
              (mkPhotosIdentifier "acc" None (Some "9")) "9"
              (Fixture.home Fixture.single) (ApiError "not found") 0 1
              eq_refl eq_refl eq_refl eq_refl))).
Defined.

Lemma recent_children_are_listed_items_witness :
  exists source,
    result_of (Fixture.browse Fixture.thirty 50 "acc/a/recent")
    = Returned source
    /\ Browse.identifier source = Some "acc"
    /\ Browse.title source = "Home"
    /\ option_map (@length _) (Browse.children source) = Some 60.
Proof.
  eexists. split; [reflexivity|].
  destruct (recent_children_are_listed_items nat Fixture.DOMAIN
              (Fixture.hass Fixture.thirty) 50 "acc/a/recent"
              (mkPhotosIdentifier "acc" (Some "recent") None)
              (Fixture.home Fixture.thirty) 0 _ eq_refl eq_refl eq_refl eq_refl)
    as (Hid & Htitle & Hchildren).
  split; [exact Hid|]. split; [exact Htitle|].
  rewrite Hchildren. reflexivity.
Defined.

Lemma recent_children_minimum_witness :
  exists source nodes,
    result_of (Fixture.browse Fixture.single 5 "acc/a/recent")
    = Returned source
    /\ Browse.children source = Some nodes
    /\ length nodes = 2
    /\ ends_without_token
         (events_of (Fixture.browse Fixture.single 5 "acc/a/recent")).
Proof.
  eexists. eexists. split; [reflexivity|]. split; [reflexivity|].
  split; [reflexivity|].
  destruct (recent_children_minimum nat Fixture.DOMAIN
              (Fixture.hass Fixture.single) 5 "acc/a/recent"
              (mkPhotosIdentifier "acc" (Some "recent") None)
              (Fixture.home Fixture.single) 0 _ _
              eq_refl eq_refl eq_refl eq_refl eq_refl)
    as [H|H]; [|exact H].
  simpl in H. lia.
Defined.


Lemma album_child_browsable_witness :
  PyStr.contains slash "acc" = false
  /\ list_media_items Fixture.single PAGE_SIZE None 0
     = (inr (mkListResult [Fixture.photo; Fixture.movie] None), 1)
  /\ events_of (Fixture.browse Fixture.single 1 "acc/a/recent")
     = [EntryLookup "acc";
        ListMediaItems 100 None
          (inr (mkListResult [Fixture.photo; Fixture.movie] None))].
Proof.
  split; [reflexivity|]. split; [reflexivity|].
  exact (f_equal events_of
           (album_child_browsable nat Fixture.DOMAIN
              (Fixture.hass Fixture.single) 0 "acc"
              (Fixture.home Fixture.single)
              (mkListResult [Fixture.photo; Fixture.movie] None) 0 1
              eq_refl eq_refl eq_refl eq_refl)).
Defined.

Lemma root_child_browsable_witness :
  In (Fixture.home Fixture.single)
     (async_loaded_entries (Fixture.hass Fixture.single) Fixture.DOMAIN)
  /\ events_of (Fixture.browse Fixture.single 0 "acc") = [EntryLookup "acc"]
  /\ exists source,
       result_of (Fixture.browse Fixture.single 0 "acc") = Returned source
       /\ option_map (map Browse.identifier) (Browse.children source)
          = Some [Some "acc/a/recent"].
Proof.
  assert (Hin : In (Fixture.home Fixture.single)
                  (async_loaded_entries (Fixture.hass Fixture.single)
                     Fixture.DOMAIN)) by (left; reflexivity).
  assert (Hne : ConfigEntry.unique_id (Fixture.home Fixture.single)
                <> EmptyString) by discriminate.
  destruct (root_child_browsable nat Fixture.DOMAIN
              (Fixture.hass Fixture.single) 0 (Fixture.home Fixture.single) 0
              Hin Hne eq_refl eq_refl) as (_ & _ & Hbrowse).
  split; [exact Hin|]. split; [exact (f_equal events_of Hbrowse)|].
  eexists. split; [exact (f_equal result_of Hbrowse)|]. reflexivity.
Defined.

Lemma item_child_resolvable_witness :
  PyStr.contains slash "acc" = false /\ PyStr.contains slash "3" = false
  /\ events_of (Fixture.resolve Fixture.single "acc/p/3")
     = [EntryLookup "acc"; GetMediaItem "3" (inr Fixture.movie)]
  /\ world_of (Fixture.resolve Fixture.single "acc/p/3") = 1.
Proof.
  exact (conj eq_refl (conj eq_refl
           (item_child_resolvable nat Fixture.DOMAIN
              (Fixture.hass Fixture.single) "acc" "3"
              (Fixture.home Fixture.single) 0 eq_refl eq_refl eq_refl))).
Defined.

Section AdapterBound.

Variable W : Type.
Variable DOMAIN : string.
Variable hass : HomeAssistant W.

(** What the loop returns goes beyond the threshold by less than the
    size of the last page. *)
Lemma fetch_recent_bounded (client : Client W) (fuel : nat) :
  forall media_items page_token w fetched,
    result_of (fetch_recent W fuel client media_items page_token w)
    = Returned fetched ->
    (events_of (fetch_recent W fuel client media_items page_token w) = []
     /\ (MAX_PHOTOS <= Z.of_nat (length media_items))%Z)
    \/ (exists size token result,
          last (events_of (fetch_recent W fuel client media_items page_token w))
               (EntryLookup EmptyString)
          = ListMediaItems size token (inr result)
          /\ (Z.of_nat (length fetched)
              < MAX_PHOTOS + Z.of_nat (length (mediaItems result)))%Z).
Proof.
  induction fuel as [|fuel IH]; intros media_items page_token w fetched.
  - simpl. destruct (Z.of_nat (length media_items) <? MAX_PHOTOS)%Z eqn:E;
      [discriminate|]. intros _. left. split; [reflexivity | now apply Z.ltb_ge].
  - rewrite fetch_recent_step.
    destruct (Z.of_nat (length media_items) <? MAX_PHOTOS)%Z eqn:E;
      [|intros _; left; split; [reflexivity | now apply Z.ltb_ge]].
    apply Z.ltb_lt in E.
    destruct (list_media_items client PAGE_SIZE page_token w)
      as [[err|result] w']; [discriminate|].
    destruct (nextPageToken result) as [token|] eqn:Et.
    + pose proof (fetch_recent_accumulates W client fuel
                    (media_items ++ mediaItems result) (Some token) w' fetched)
        as Hacc.
      specialize (IH (media_items ++ mediaItems result) (Some token) w' fetched).
      destruct (fetch_recent W fuel client _ _ w') as [[o w2] evs].
      unfold result_of, events_of in *. cbn [fst snd] in *.
      intros Ho. right.
      destruct (IH Ho) as [(-> & _)|(size & tok & r & Hlast & Hr)].
      * exists PAGE_SIZE, page_token, result. split; [reflexivity|].
        rewrite (Hacc Ho). cbn [listed_items]. rewrite app_nil_r, length_app.
        lia.
      * exists size, tok, r. split; [|exact Hr].
        destruct evs as [|ev evs]; [discriminate Hlast | exact Hlast].
    + intros [= <-]. right. exists PAGE_SIZE, page_token, result.
      split; [reflexivity|]. rewrite length_app. lia.
Qed.

(** X19. A returned browse of the recent album has received at least one
    page, and its number of children goes beyond 49 by at most the size
    of the last page received: the items of a page are never cut, and no
    page is requested once 50 items are there. *)
Theorem recent_children_bounded (fuel : nat) (s : string)
    (x : PhotosIdentifier) (entry : ConfigEntry.t W) (w : W)
    (source : BrowseMediaSource) (nodes : list BrowseMediaSource) :
  parse_identifier s = inr x ->
  album_media_id x = Some RECENT_PHOTOS_ALBUM ->
  async_entry_for_domain_unique_id hass DOMAIN (config_entry_id x) = Some entry ->
  let run := async_browse_media W DOMAIN hass fuel (mkItem s) w in
  result_of run = Returned source -> Browse.children source = Some nodes ->
  exists size token page,
    last (events_of run) (EntryLookup EmptyString)
    = ListMediaItems size token (inr page)
    /\ length nodes < 50 + length (mediaItems page).
Proof.
  intros Hp Ha Hl run. subst run.
  rewrite (browse_recent_album W DOMAIN hass fuel s x entry w Hp Ha Hl).
  pose proof (fetch_recent_bounded (ConfigEntry.runtime_data entry) fuel
                [] None w) as Hb.
  destruct (fetch_recent W fuel _ [] None w) as [[[fetched|e|] w'] evs];
    unfold result_of, events_of in *; cbn [fst snd] in *; try discriminate.
  intros [= <-]. cbn [Browse.children Browse.set_children]. intros [= <-].
  rewrite length_map.
  destruct (Hb fetched eq_refl) as [(_ & H)|(size & tok & r & Hlast & Hr)].
  - unfold MAX_PHOTOS in H. simpl in H. lia.
  - exists size, tok, r. split.
    + destruct evs as [|ev evs]; [discriminate Hlast | exact Hlast].
    + unfold MAX_PHOTOS in Hr. lia.
Qed.

End AdapterBound.

Lemma recent_children_bounded_witness :
  exists source nodes,
    result_of (Fixture.browse Fixture.thirty 50 "acc/a/recent")
    = Returned source
    /\ Browse.children source = Some nodes
    /\ length nodes = 60
    /\ exists size token page,
         last (events_of (Fixture.browse Fixture.thirty 50 "acc/a/recent"))
              (EntryLookup EmptyString)
         = ListMediaItems size token (inr page)
         /\ length nodes < 50 + length (mediaItems page).
Proof.
  eexists. eexists. split; [reflexivity|]. split; [reflexivity|].
  split; [reflexivity|].
  exact (recent_children_bounded nat Fixture.DOMAIN
           (Fixture.hass Fixture.thirty) 50 "acc/a/recent"
           (mkPhotosIdentifier "acc" (Some "recent") None)
           (Fixture.home Fixture.thirty) 0 _ _
           eq_refl eq_refl eq_refl eq_refl eq_refl).
Defined.
